(** * Movie Renamer Ultimate: title normalizer and TMDB match resolver

    A shallow embedding of the parts of [src/main.py] that turn a file name
    into a search query ([_process_files_thread], [show_tmdb_override]) and
    resolve it against the metadata provider ([search_tmdb]), together with
    the helpers they use ([_number_to_roman], [convert_roman_numerals]).

    Python strings are modelled as lists of characters. The character
    classes below are those of Python's [str] methods and of its [re]
    module on the code points below 128; the model is about ASCII text,
    and a character from 128 on counts as neither letter, digit nor white
    space. The provider is a state with an answer to each request, so that
    its answers may change in the course of a session. *)

(** The second part of the file follows a resolved title to the disk: the
    names of files and folders ([sanitize_filename]), the preview list
    ([apply_filters], [display_preview_item], [on_preview_double_click]),
    the renaming itself ([_process_movies]) and the names read from a drop
    on the window ([on_drop]). The file system is a state with the calls
    the program makes on it, each of which may raise. *)

From Stdlib Require Import Ascii String List Bool Arith NArith ZArith Lia.
From Stdlib Require Import DecimalString.
From stdpp Require Import base option list gmap strings.
Import ListNotations.

(** ** Python strings *)

Module PyStr.

Definition str (s : string) : list ascii := list_ascii_of_string s.
Arguments str : simpl never.

Definition code (c : ascii) : nat := nat_of_ascii c.

Definition in_range (lo hi : nat) (c : ascii) : bool :=
  (lo <=? code c) && (code c <=? hi).

(** [\d] *)
Definition is_digit (c : ascii) : bool := in_range 48 57 c.
Definition is_upper (c : ascii) : bool := in_range 65 90 c.
Definition is_lower (c : ascii) : bool := in_range 97 122 c.

(** [\w]: letters, digits and the underscore. *)
Definition is_word (c : ascii) : bool :=
  is_digit c || is_upper c || is_lower c || (code c =? 95).

(** [\s], and the white space of [str.strip] and [str.split]:
    TAB, LF, VT, FF, CR, FS, GS, RS, US and the space. *)
Definition is_space (c : ascii) : bool :=
  in_range 9 13 c || in_range 28 32 c.

Definition lower_chr (c : ascii) : ascii :=
  if is_upper c then ascii_of_nat (code c + 32) else c.

(** [s.lower()] *)
Definition lower (s : list ascii) : list ascii := map lower_chr s.

Fixpoint lstrip (s : list ascii) : list ascii :=
  match s with
  | c :: t => if is_space c then lstrip t else s
  | [] => []
  end.

Definition rstrip (s : list ascii) : list ascii := rev (lstrip (rev s)).

(** [s.strip()] *)
Definition strip (s : list ascii) : list ascii := rstrip (lstrip s).

(** [s.split()]: the maximal runs of characters that are not white space. *)
Fixpoint split (s : list ascii) : list (list ascii) :=
  match s with
  | [] => []
  | c :: t =>
      if is_space c then split t
      else match t with
           | [] => [[c]]
           | c' :: _ =>
               if is_space c' then [c] :: split t
               else match split t with
                    | w :: ws => (c :: w) :: ws
                    | [] => [[c]]
                    end
           end
  end.

(** [sep.join(words)] *)
Fixpoint join (sep : list ascii) (words : list (list ascii)) : list ascii :=
  match words with
  | [] => []
  | [w] => w
  | w :: ws => w ++ sep ++ join sep ws
  end.

(** [s[i:j]] for [0 <= i <= j]. *)
Definition slice (i j : nat) (s : list ascii) : list ascii :=
  take (j - i) (drop i s).

(** Truth value of a string: the empty string is false. *)
Definition truthy (s : list ascii) : bool :=
  match s with [] => false | _ => true end.

(** Truth value of an optional string: [None] and [''] are false. *)
Definition truthy_opt (o : option (list ascii)) : bool :=
  match o with Some s => truthy s | None => false end.

(** [int(s)] for a string of decimal digits. *)
Definition digit_val (c : ascii) : N := N.of_nat (code c - 48).

Definition int_of_digits (s : list ascii) : N :=
  fold_left (fun acc c => (10 * acc + digit_val c)%N) s 0%N.

(** [os.path.splitext] on a base name: the extension starts at the last
    dot, unless only dots precede it. *)
Fixpoint last_dot (s : list ascii) (pos : nat) (found : option nat) : option nat :=
  match s with
  | [] => found
  | c :: t => last_dot t (S pos) (if Ascii.eqb c "."%char then Some pos else found)
  end.

Definition splitext (p : list ascii) : list ascii * list ascii :=
  match last_dot p 0 None with
  | Some d =>
      if forallb (Ascii.eqb "."%char) (take d p) then (p, [])
      else (take d p, drop d p)
  | None => (p, [])
  end.

End PyStr.
Import PyStr.

(** ** The fragment of Python's [re] used by the program

    A backtracking matcher with Python's priorities: the leftmost match,
    the first alternative that leads to a match, greedy repetition taking
    as much as it can and lazy repetition as little as it can.  Every
    repetition in the program's patterns is over a single character class,
    so [Star] repeats a class. *)

Module Re.

Inductive regex : Type :=
| Eps
| Cls (p : ascii -> bool)
| Seq (r1 r2 : regex)
| Alt (r1 r2 : regex)
| Star (greedy : bool) (p : ascii -> bool)
| Group (r : regex)
| WordB
| Bol
| Eol.

(** A position in the subject: the character before it, its index, the
    text from it on, and the span of the capture group so far. *)
Record cursor : Type := Cursor {
  c_prev : option ascii;
  c_pos : nat;
  c_rest : list ascii;
  c_grp : option (nat * nat)
}.

Definition word_opt (o : option ascii) : bool :=
  match o with Some c => is_word c | None => false end.

(** [\b]: exactly one of the two neighbours is a word character. *)
Definition at_boundary (c : cursor) : bool :=
  xorb (word_opt (c_prev c)) (word_opt (head (c_rest c))).

(** [$]: the end of the text, or just before a final line break. *)
Definition at_eol (c : cursor) : bool :=
  match c_rest c with
  | [] => true
  | [a] => Ascii.eqb a "010"%char
  | _ => false
  end.

Section Matcher.
Context {A : Type}.

Fixpoint star (greedy : bool) (p : ascii -> bool) (k : cursor -> option A)
    (prev : option ascii) (pos : nat) (grp : option (nat * nat))
    (rest : list ascii) : option A :=
  match rest with
  | [] => k (Cursor prev pos [] grp)
  | a :: t =>
      if p a then
        if greedy then
          match star greedy p k (Some a) (S pos) grp t with
          | Some x => Some x
          | None => k (Cursor prev pos rest grp)
          end
        else
          match k (Cursor prev pos rest grp) with
          | Some x => Some x
          | None => star greedy p k (Some a) (S pos) grp t
          end
      else k (Cursor prev pos rest grp)
  end.

Fixpoint rmatch (r : regex) (k : cursor -> option A) (c : cursor) : option A :=
  match r with
  | Eps => k c
  | Cls p =>
      match c_rest c with
      | a :: t => if p a then k (Cursor (Some a) (S (c_pos c)) t (c_grp c)) else None
      | [] => None
      end
  | Seq r1 r2 => rmatch r1 (rmatch r2 k) c
  | Alt r1 r2 =>
      match rmatch r1 k c with
      | Some x => Some x
      | None => rmatch r2 k c
      end
  | Star greedy p => star greedy p k (c_prev c) (c_pos c) (c_grp c) (c_rest c)
  | Group r1 =>
      rmatch r1 (fun c' => k (Cursor (c_prev c') (c_pos c') (c_rest c')
                                     (Some (c_pos c, c_pos c')))) c
  | WordB => if at_boundary c then k c else None
  | Bol => if c_pos c =? 0 then k c else None
  | Eol => if at_eol c then k c else None
  end.

End Matcher.

(** A match of [r] starting exactly at the cursor: where it ends. *)
Definition match_at (r : regex) (prev : option ascii) (pos : nat)
    (rest : list ascii) : option cursor :=
  rmatch r Some (Cursor prev pos rest None).

(** A match object: start, end, and the span of group 1. *)
Record rmatch_obj : Type := MatchObj {
  m_start : nat;
  m_end : nat;
  m_grp : option (nat * nat)
}.

Fixpoint search_from (r : regex) (prev : option ascii) (pos : nat)
    (rest : list ascii) : option rmatch_obj :=
  match match_at r prev pos rest with
  | Some c => Some (MatchObj pos (c_pos c) (c_grp c))
  | None =>
      match rest with
      | [] => None
      | a :: t => search_from r (Some a) (S pos) t
      end
  end.

(** [re.search(r, s)] *)
Definition search (r : regex) (s : list ascii) : option rmatch_obj :=
  search_from r None 0 s.

(** [m.group(1)] *)
Definition group1 (s : list ascii) (m : rmatch_obj) : option (list ascii) :=
  match m_grp m with
  | Some (i, j) => Some (slice i j s)
  | None => None
  end.

(** [re.sub(r, repl, s)] with [repl] a function of the matched text (a
    constant function for a replacement string).  [skip] counts the
    characters of the current match still to be dropped.  None of the
    program's patterns matches the empty string; an empty match is
    replaced and the scan moves on by one character. *)
Fixpoint sub_from (r : regex) (repl : list ascii -> list ascii)
    (prev : option ascii) (pos : nat) (skip : nat) (rest : list ascii)
    : list ascii :=
  match skip with
  | S n =>
      match rest with
      | [] => []
      | a :: t => sub_from r repl (Some a) (S pos) n t
      end
  | 0 =>
      match match_at r prev pos rest with
      | Some c =>
          let len := c_pos c - pos in
          repl (take len rest) ++
          match rest with
          | [] => []
          | a :: t =>
              match len with
              | 0 => a :: sub_from r repl (Some a) (S pos) 0 t
              | S n => sub_from r repl (Some a) (S pos) n t
              end
          end
      | None =>
          match rest with
          | [] => []
          | a :: t => a :: sub_from r repl (Some a) (S pos) 0 t
          end
      end
  end.

Definition sub_fn (r : regex) (repl : list ascii -> list ascii)
    (s : list ascii) : list ascii :=
  sub_from r repl None 0 0 s.

Definition sub (r : regex) (repl : list ascii) (s : list ascii) : list ascii :=
  sub_fn r (fun _ => repl) s.

(** *** Pattern combinators *)

Definition chr (c : ascii) : regex := Cls (Ascii.eqb c).

(** A literal character under [re.IGNORECASE]. *)
Definition chr_i (c : ascii) : regex :=
  Cls (fun x => Ascii.eqb (lower_chr x) (lower_chr c)).

(** A literal; [ic] is the [re.IGNORECASE] flag. *)
Fixpoint lit (ic : bool) (s : list ascii) : regex :=
  match s with
  | [] => Eps
  | c :: t => Seq (if ic then chr_i c else chr c) (lit ic t)
  end.

(** [r?] *)
Definition opt (r : regex) : regex := Alt r Eps.

(** [r1|r2|...] *)
Fixpoint alts (rs : list regex) : regex :=
  match rs with
  | [] => Cls (fun _ => false)
  | [r] => r
  | r :: rs' => Alt r (alts rs')
  end.

(** [r1 r2 ...] *)
Fixpoint seqs (rs : list regex) : regex :=
  match rs with
  | [] => Eps
  | [r] => r
  | r :: rs' => Seq r (seqs rs')
  end.

(** [[abc]] *)
Definition one_of (cs : list ascii) : ascii -> bool :=
  fun x => existsb (Ascii.eqb x) cs.

(** [.]: any character but the line break. *)
Definition dot : ascii -> bool := fun x => negb (Ascii.eqb x "010"%char).

(** [\d{4}] *)
Definition digits4 : regex :=
  seqs [Cls is_digit; Cls is_digit; Cls is_digit; Cls is_digit].

End Re.
Import Re.

(** ** Roman numerals *)

Module Roman.

Definition val_syms : list (N * list ascii) :=
  [ (1000%N, str "M"); (900%N, str "CM"); (500%N, str "D"); (400%N, str "CD");
    (100%N, str "C"); (90%N, str "XC"); (50%N, str "L"); (40%N, str "XL");
    (10%N, str "X"); (9%N, str "IX"); (5%N, str "V"); (4%N, str "IV");
    (1%N, str "I") ].

(** The [while num > 0] loop of [_number_to_roman], [table] being the
    entries from index [i] on: the symbol is appended [num // val[i]]
    times, which leaves [num % val[i]]. *)
Fixpoint roman_loop (table : list (N * list ascii)) (num : N) : list ascii :=
  match table with
  | [] => []
  | (v, sym) :: t =>
      if (num =? 0)%N then []
      else concat (repeat sym (N.to_nat (num / v))) ++ roman_loop t (num mod v)%N
  end.

Definition _number_to_roman (num : N) : list ascii := roman_loop val_syms num.

Definition roman_map : list (list ascii * list ascii) :=
  [ (str "IV", str "4"); (str "IX", str "9"); (str "XL", str "40");
    (str "XC", str "90"); (str "CD", str "400"); (str "CM", str "900");
    (str "I", str "1"); (str "V", str "5"); (str "X", str "10");
    (str "L", str "50"); (str "C", str "100"); (str "D", str "500");
    (str "M", str "1000") ].

(** [sorted(items, key=lambda x: len(x[0]), reverse=True)]: a stable sort,
    longest key first. *)
Fixpoint insert_by_len {B : Type} (x : list ascii * B) (l : list (list ascii * B))
    : list (list ascii * B) :=
  match l with
  | [] => [x]
  | y :: t =>
      if length (fst y) <? length (fst x) then x :: l
      else y :: insert_by_len x t
  end.

Definition sorted_by_len {B : Type} (l : list (list ascii * B)) : list (list ascii * B) :=
  fold_left (fun acc x => insert_by_len x acc) l [].

(** [r'\b' + roman + r'\b'] with [re.IGNORECASE] *)
Definition roman_word (roman : list ascii) : regex :=
  seqs [WordB; lit true roman; WordB].

Definition convert_roman_numerals (text : list ascii) : list ascii :=
  fold_left (fun text rn => sub (roman_word (fst rn)) (snd rn) text)
            (sorted_by_len roman_map) text.

End Roman.
Import Roman.

(** ** Title normalizer *)

Module Normalizer.

Definition sep_chr : ascii -> bool := one_of (str "._-").

(** [[._\s-]] *)
Definition sep_or_space : ascii -> bool := fun x => sep_chr x || is_space x.

(** [[12]\d{3}] *)
Definition year_digits : regex :=
  seqs [Cls (one_of (str "12")); Cls is_digit; Cls is_digit; Cls is_digit].

(** [\((\d{4})\)] *)
Definition paren_year_re : regex := seqs [chr "("; Group digits4; chr ")"].

(** [[._\s-]([12]\d{3})[._\s-]], the batch path's standalone year *)
Definition batch_year_re : regex :=
  seqs [Cls sep_or_space; Group year_digits; Cls sep_or_space].

(** [(?:^|\D)([12]\d{3})(?:\D|$)], the override dialog's standalone year *)
Definition override_year_re : regex :=
  seqs [Alt Bol (Cls (fun x => negb (is_digit x))); Group year_digits;
        Alt (Cls (fun x => negb (is_digit x))) Eol].

(** [[\[\{].*?[\]\}]] *)
Definition is_open : ascii -> bool := one_of (str "[{").
Definition is_close : ascii -> bool := one_of (str "]}").
Definition bracket_re : regex := seqs [Cls is_open; Star false dot; Cls is_close].

(** [\b[12]\d{3}\b] *)
Definition bare_year_re : regex := seqs [WordB; year_digits; WordB].

(** [[\._-](rarbg|anoXmous|scene|proper|rerip|remux)(?:\.|_|-|$)],
    [re.IGNORECASE] *)
Definition username_re : regex :=
  seqs [Cls sep_chr;
        Group (alts (map (fun w => lit true (str w))
                 ["rarbg"; "anoXmous"; "scene"; "proper"; "rerip"; "remux"]%string));
        alts [chr "."; chr "_"; chr "-"; Eol]].

Definition m (w : string) : regex := lit true (str w).

(** [a\.?b], [re.IGNORECASE] *)
Definition m_dot (a b : string) : regex := seqs [m a; opt (chr "."); m b].

(** The alternatives of [quality_markers] in [show_tmdb_override]. *)
Definition override_markers : list regex :=
  [ m "1080p"; m "720p"; m "480p"; m "2160p"; m "4k"; m "uhd";
    m "bluray"; m "blu-ray"; m "bdrip"; m "webrip"; m "hdtv"; m "dvdrip";
    m_dot "h" "264"; m_dot "x" "264"; m "hevc"; m_dot "h" "265"; m_dot "x" "265";
    m "aac"; m "ac3"; m "dts"; m "amd64"; m "x86_64"; m "10bit"; m "avc";
    m "vc1"; m "mpeg2"; m "aiff"; m "flac"; m "opus"; m "vorbis"; m "mp3";
    m "eac3"; m "truehd"; m "dts-hd"; m "atmos"; m "imax"; m "remastered";
    m "extended"; seqs [m "director"; opt (chr_i "s"); m "cut"]; m "uncut";
    m "proper"; m "rerip"; m "remux"; m "pdtv"; m "dsr"; m "ts"; m "tc";
    m "r5"; m "dvdscr"; m "brrip"; m "xvid"; m "divx"; m "h264"; m "x264";
    m "web"; m "web-dl"; m "web-rip" ].

(** Those of [_process_files_thread], which has [ultraHD|UltraHD] after
    [uhd]. *)
Definition batch_markers : list regex :=
  [ m "1080p"; m "720p"; m "480p"; m "2160p"; m "4k"; m "uhd"; m "ultraHD";
    m "UltraHD";
    m "bluray"; m "blu-ray"; m "bdrip"; m "webrip"; m "hdtv"; m "dvdrip";
    m_dot "h" "264"; m_dot "x" "264"; m "hevc"; m_dot "h" "265"; m_dot "x" "265";
    m "aac"; m "ac3"; m "dts"; m "amd64"; m "x86_64"; m "10bit"; m "avc";
    m "vc1"; m "mpeg2"; m "aiff"; m "flac"; m "opus"; m "vorbis"; m "mp3";
    m "eac3"; m "truehd"; m "dts-hd"; m "atmos"; m "imax"; m "remastered";
    m "extended"; seqs [m "director"; opt (chr_i "s"); m "cut"]; m "uncut";
    m "proper"; m "rerip"; m "remux"; m "pdtv"; m "dsr"; m "ts"; m "tc";
    m "r5"; m "dvdscr"; m "brrip"; m "xvid"; m "divx"; m "h264"; m "x264";
    m "web"; m "web-dl"; m "web-rip" ].

(** [\b(...)\b], [re.IGNORECASE] *)
Definition quality_markers (markers : list regex) : regex :=
  seqs [WordB; Group (alts markers); WordB].

(** [[._-]+] *)
Definition seps_re : regex := Seq (Cls sep_chr) (Star true sep_chr).

(** The year of [_process_files_thread]. *)
Definition extract_year (name : list ascii) : option (list ascii) :=
  let year :=
    match search paren_year_re name with
    | Some mo => group1 name mo
    | None => None
    end in
  if negb (truthy_opt year) && bool_decide (is_Some (search batch_year_re name)) then
    match search batch_year_re name with
    | Some mo => group1 name mo
    | None => year
    end
  else year.

(** The year of [show_tmdb_override]. *)
Definition override_year (name : list ascii) : option (list ascii) :=
  let year :=
    match search paren_year_re name with
    | Some mo => group1 name mo
    | None => None
    end in
  if negb (truthy_opt year) then
    match search override_year_re name with
    | Some mo => group1 name mo
    | None => year
    end
  else year.

(** The cleaning steps, each followed by [.strip()] as in the source. *)
Definition strip_paren_year (s : list ascii) : list ascii :=
  strip (sub (seqs [chr "("; digits4; chr ")"]) [] s).
Definition strip_brackets (s : list ascii) : list ascii :=
  strip (sub bracket_re [] s).
Definition strip_bare_years (s : list ascii) : list ascii :=
  strip (sub bare_year_re [] s).
Definition strip_usernames (s : list ascii) : list ascii :=
  strip (sub username_re (str " ") s).
Definition strip_markers (markers : list regex) (s : list ascii) : list ascii :=
  strip (sub (quality_markers markers) [] s).
Definition seps_to_spaces (s : list ascii) : list ascii :=
  strip (sub seps_re (str " ") s).
Definition collapse_spaces (s : list ascii) : list ascii :=
  join (str " ") (split s).

Definition clean_with (markers : list regex) (name : list ascii) : list ascii :=
  collapse_spaces
    (seps_to_spaces
      (strip_markers markers
        (strip_usernames
          (strip_bare_years
            (strip_brackets
              (strip_paren_year name)))))).

(** [clean_name] of [_process_files_thread]. *)
Definition clean_name (name : list ascii) : list ascii := clean_with batch_markers name.

(** [clean_name] of [show_tmdb_override]. *)
Definition override_clean_name (name : list ascii) : list ascii :=
  clean_with override_markers name.

(** The normalizer of the batch path: the clean title and the year. *)
Definition normalize (name : list ascii) : list ascii * option (list ascii) :=
  (clean_name name, extract_year name).

End Normalizer.
Import Normalizer.

(** ** Match resolver *)

Module Resolver.

(** A dictionary with the keys ['title'], ['year'] and ['id']: the result
    of a successful search, and (without ['id']) the placeholder the batch
    loop stores for a file that was not matched. *)
Record tmdb_result : Type := TmdbResult {
  res_title : list ascii;
  res_year : list ascii;
  res_id : option Z
}.

(** A candidate in the provider's result list. *)
Record movie : Type := Movie {
  title : list ascii;
  release_date : option (list ascii);
  id : Z
}.

(** The query parameters of one request; ['year'] is set only when the
    search year is true. *)
Record params : Type := Params {
  p_api_key : list ascii;
  p_query : list ascii;
  p_page : nat;
  p_language : list ascii;
  p_year : option (list ascii)
}.

(** What [requests.get], [raise_for_status] and [json] can raise. *)
Inductive failure : Type :=
| Timeout
| ConnectionError
| OtherError (msg : list ascii).

Inductive response : Type :=
| Raised (e : failure)
| Results (results : list movie).

(** What a resolution does besides returning: requests, dialogs, prints. *)
Inductive event : Type :=
| EvSearching (query : list ascii) (year : option (list ascii))
| EvRequest (p : params) (r : response)
| EvFound (r : tmdb_result)
| EvNoResults (query : list ascii)
| EvShowError (caption msg : list ascii)
| EvErrorPrint (query msg : list ascii)
| EvPrint (line : list ascii).

Definition is_request (e : event) : bool :=
  match e with EvRequest _ _ => true | _ => false end.


Definition is_show_error (e : event) : bool :=
  match e with EvShowError _ _ => true | _ => false end.

(** The requests among the events, in order. *)
Definition requests (evs : list event) : list (params * response) :=
  omap (fun e => match e with EvRequest p r => Some (p, r) | _ => None end) evs.

(** [f"{query}:{year}"]; [None] is printed as ["None"]. *)
Definition cache_key (query : list ascii) (year : option (list ascii)) : list ascii :=
  query ++ str ":" ++ match year with Some y => y | None => str "None" end.

(** [\b\d+\b] *)
Definition arabic_number_re : regex :=
  seqs [WordB; Cls is_digit; Star true is_digit; WordB].

Definition query_no_roman (query : list ascii) : list ascii :=
  sub_fn arabic_number_re (fun t => _number_to_roman (int_of_digits t)) query.

(** The list [searches] built by [search_tmdb]. *)
Definition searches (query : list ascii) (year : option (list ascii))
    : list (list ascii * option (list ascii)) :=
  (if truthy_opt year then [(query, year)] else []) ++
  [(query, None)] ++
  (if bool_decide (query_no_roman query ≠ query)
   then [(query_no_roman query, year); (query_no_roman query, None)]
   else []) ++
  (let words := split query in
   if 2 <? length words
   then let two_word := join (str " ") (take 2 words) in
        [(two_word, year); (two_word, None)]
   else []).

(** [not search_query or search_query.lower() == 'the'] *)
Definition skipped (search_query : list ascii) : bool :=
  negb (truthy search_query) || bool_decide (lower search_query = str "the").

Definition make_result (top : movie) : tmdb_result :=
  {| res_title := title top;
     res_year := match release_date top with
                 | Some d => if truthy d then take 4 d else str "UNKNOWN"
                 | None => str "UNKNOWN"
                 end;
     res_id := Some (id top) |}.

Definition make_params (key lang query : list ascii) (year : option (list ascii)) : params :=
  {| p_api_key := key; p_query := query; p_page := 1; p_language := lang;
     p_year := if truthy_opt year then year else None |}.

(** How the [for] loop over [searches] ends. *)
Inductive outcome : Type :=
| Hit (r : tmdb_result)
| Exhausted
| Failed (e : failure).

Section WithProvider.

(** The metadata provider: a state and its answer to a request. *)
Context {P : Type}.
Variable ask : P -> params -> response * P.

Record state : Type := State {
  api_key : list ascii;
  language : list ascii;
  tmdb_cache : gmap (list ascii) tmdb_result;
  provider : P;
  log : list event
}.

(** The loop [for search_query, search_year in searches]. *)
Fixpoint execute (key lang : list ascii) (p : P)
    (ss : list (list ascii * option (list ascii)))
    : outcome * P * list event :=
  match ss with
  | [] => (Exhausted, p, [])
  | (q, y) :: rest =>
      if skipped q then execute key lang p rest
      else
        let prm := make_params key lang q y in
        let '(resp, p') := ask p prm in
        match resp with
        | Raised e => (Failed e, p', [EvSearching q y; EvRequest prm resp])
        | Results [] =>
            let '(o, p'', evs) := execute key lang p' rest in
            (o, p'', EvSearching q y :: EvRequest prm resp :: evs)
        | Results (top :: _) =>
            (Hit (make_result top), p', [EvSearching q y; EvRequest prm resp])
        end
  end.

(** The handlers of the [try] block, by the way the loop ended. *)
Definition closing_event (query : list ascii) (o : outcome) : event :=
  match o with
  | Hit r => EvFound r
  | Exhausted => EvNoResults query
  | Failed Timeout =>
      EvShowError (str "Timeout")
        (str "TMDB API request timed out. Check your internet connection.")
  | Failed ConnectionError =>
      EvShowError (str "Connection Error")
        (str "Could not connect to TMDB. Check your internet connection.")
  | Failed (OtherError msg) => EvErrorPrint query msg
  end.

Definition search_tmdb (st : state) (query : list ascii) (year : option (list ascii))
    : option tmdb_result * state :=
  let key := cache_key query year in
  match tmdb_cache st !! key with
  | Some r => (Some r, st)
  | None =>
      if negb (truthy (api_key st)) then
        (None, State (api_key st) (language st) (tmdb_cache st) (provider st)
                 (log st ++ [EvErrorPrint query (str "API key not configured")]))
      else
        let '(o, p', evs) :=
          execute (api_key st) (language st) (provider st) (searches query year) in
        let log' := log st ++ evs ++ [closing_event query o] in
        match o with
        | Hit r =>
            (Some r, State (api_key st) (language st)
                       (<[key := r]> (tmdb_cache st)) p' log')
        | _ => (None, State (api_key st) (language st) (tmdb_cache st) p' log')
        end
  end.

(** An entry of [preview_data]: the stem, the dictionary and the status
    (the new file name, which [build_filename] derives from the
    dictionary, is left out). *)
Inductive status : Type := found | not_found.

Definition not_found_dict : tmdb_result :=
  {| res_title := str "NOT FOUND"; res_year := []; res_id := None |}.

(** One turn of the loop of [_process_files_thread] on an existing file
    with stem [name]. *)
Definition process_file (st : state) (name : list ascii)
    : (list ascii * tmdb_result * status) * state :=
  let '(clean, year) := normalize name in
  match search_tmdb st clean year with
  | (Some r, st') => ((name, r, found), st')
  | (None, st') => ((name, not_found_dict, not_found), st')
  end.

(** The loop of [_process_files_thread] over the stems of the files. *)
Fixpoint process_files (st : state) (names : list (list ascii))
    : list (list ascii * tmdb_result * status) * state :=
  match names with
  | [] => ([], st)
  | name :: rest =>
      let '(item, st1) := process_file st name in
      let '(items, st2) := process_files st1 rest in
      (item :: items, st2)
  end.

(** What can happen to a session between two resolutions and by them:
    the provider's data and the language setting change, files are
    resolved. *)
Inductive evolves : state -> state -> Prop :=
| evolves_refl st : evolves st st
| evolves_search st query year st' :
    evolves st st' -> evolves st (snd (search_tmdb st' query year))
| evolves_world st st' lang p :
    evolves st st' ->
    evolves st (State (api_key st') lang (tmdb_cache st') p (log st')).

End WithProvider.

(** A provider that answers each request by a fixed function. *)
Definition stateless (answer : params -> response) : unit -> params -> response * unit :=
  fun _ prm => (answer prm, tt).

Definition no_results : params -> response := fun _ => Results [].

(** A fresh [MovieRenamer(root, api_key)]: [self.tmdb_cache = {}]. *)
Definition init {P : Type} (key lang : list ascii) (p : P) : state :=
  State key lang ∅ p [].



End Resolver.
Import Resolver.

(** ** Notions used by the statements *)

Module Spec.

(** The requests a ladder sends when every answer is empty: one for each
    search that is not skipped, in order. *)
Definition attempted (key lang : list ascii)
    (ss : list (list ascii * option (list ascii))) : list params :=
  map (fun s => make_params key lang (fst s) (snd s))
      (filter (fun s => negb (skipped (fst s))) ss).

(** An answer with an empty result list. *)
Definition empty_answer (pr : params * response) : Prop := snd pr = Results [].

(** A word: not empty, and without white space. *)
Definition word_ok (w : list ascii) : Prop :=
  w <> [] /\ Forall (fun c => is_space c = false) w.

(** A text without [.], [_] and [-]. *)
Definition no_seps (s : list ascii) : Prop := Forall (fun c => sep_chr c = false) s.

(** A query the ladder cannot vary: it is skipped, has no number to
    rewrite and at most two words. *)
Definition unsearchable (t : list ascii) : Prop :=
  skipped t = true /\ query_no_roman t = t /\ length (split t) <= 2.

(** The cleaning steps before separator normalization. *)
Definition removal_steps (markers : list regex) (s : list ascii) : list ascii :=
  strip_markers markers
    (strip_usernames (strip_bare_years (strip_brackets (strip_paren_year s)))).

(** How far the nearest closing delimiter is, when no line break comes
    before it. *)
Fixpoint close_at (t : list ascii) : option nat :=
  match t with
  | [] => None
  | c :: t' =>
      if is_close c then Some 0
      else if dot c then S <$> close_at t' else None
  end.

(** The inside of a span, which is what [.*?] runs over: no closing
    delimiter, no line break. *)
Definition span_body (mid : list ascii) : Prop :=
  Forall (fun c => is_close c = false /\ dot c = true) mid.

(** [strips s out]: [out] is [s] without its spans, read from the left. A
    span runs from an opening delimiter, [[] or [{], to the nearest
    closing one, []] or [}]; an opening delimiter that no closing one
    follows stays. *)
Inductive strips : list ascii -> list ascii -> Prop :=
| strips_nil : strips [] []
| strips_span o mid c post out :
    is_open o = true -> span_body mid -> is_close c = true ->
    strips post out -> strips (o :: mid ++ c :: post) out
| strips_keep a t out :
    is_open a = false \/ close_at t = None ->
    strips t out -> strips (a :: t) (a :: out).

(** The length of the span that starts the text, if one does. *)
Definition span_len (rest : list ascii) : option nat :=
  match rest with
  | o :: t => if is_open o then (fun n => n + 2) <$> close_at t else None
  | [] => None
  end.

(** The substitution of the bracket step, before its [.strip()]. *)
Definition bsub (s : list ascii) : list ascii := sub bracket_re [] s.

End Spec.
Import Spec.

(** ** Sessions and providers used as instances *)

Module Examples.

Definition session0 : @state unit := init (str "0123456789abcdef") (str "en") tt.


Definition rocky_ii : movie :=
  Movie (str "Rocky II") (Some (str "1979-06-15")) 1367%Z.

(** A catalog without any movie. *)
Definition empty_catalog : unit -> params -> response * unit := stateless no_results.

(** A catalog that knows one movie, whatever the query. *)
Definition rocky_catalog : unit -> params -> response * unit :=
  stateless (fun _ => Results [rocky_ii]).

(** A catalog that finds its movie only when no year is given. *)
Definition yearless_catalog : unit -> params -> response * unit :=
  stateless (fun prm => match p_year prm with
                        | Some _ => Results []
                        | None => Results [rocky_ii]
                        end).

(** A provider that cannot be reached in time. *)
Definition timing_out : unit -> params -> response * unit :=
  stateless (fun _ => Raised Timeout).

(** A provider that answers the first request and then times out: its
    state counts the requests. *)
Definition flaky : nat -> params -> response * nat :=
  fun n _ => (match n with 0 => Results [] | _ => Raised Timeout end, S n).

(** The title and year of the file [Rocky.II.1979.DVDRip.avi]. *)
Definition rocky_title : list ascii := str "Rocky II".
Definition rocky_year : option (list ascii) := Some (str "1979").

(** The session after [Rocky II] was found, and after one more file. *)
Definition after_rocky : @state unit :=
  snd (search_tmdb rocky_catalog session0 rocky_title rocky_year).

(** Resolutions of [Rocky II] against the catalogs above. *)
Definition yearless_run : option tmdb_result * @state unit :=
  search_tmdb yearless_catalog session0 rocky_title rocky_year.
Definition empty_run : option tmdb_result * @state unit :=
  search_tmdb empty_catalog session0 rocky_title rocky_year.
Definition timeout_run : option tmdb_result * @state unit :=
  search_tmdb timing_out session0 rocky_title rocky_year.

(** A resolution of [Rocky 2], whose ladder has four searches, against the
    provider that times out on the second request. *)
Definition flaky_run : option tmdb_result * @state nat :=
  search_tmdb flaky (init (str "0123456789abcdef") (str "en") 0)
    (str "Rocky 2") rocky_year.

(** The queries of the requests a resolution sent. *)
Definition queries_sent {P : Type} (run : option tmdb_result * @state P)
    : list (list ascii) :=
  map (fun pr => p_query (fst pr)) (requests (log (snd run))).

End Examples.
Import Examples.

(** ** File and folder names *)

Module Naming.

(** The class of [sanitize_filename]: the double quote and
    [<], [>], [:], [/], the backslash, [|], [?], the star. *)
Definition illegal_chr : ascii -> bool := one_of ("034"%char :: str "<>:/\|?*").

(** [sanitize_filename] *)
Definition sanitize_filename (filename : list ascii) : list ascii :=
  strip (sub (Cls illegal_chr) [] filename).

(** [f"{tmdb_data['title']} ({tmdb_data['year']})"], sanitized: the folder
    of a movie in [display_preview_item] and [_process_movies]. *)
Definition movie_folder_name (tmdb_data : tmdb_result) : list ascii :=
  sanitize_filename (res_title tmdb_data ++ str " (" ++ res_year tmdb_data ++ str ")").

End Naming.
Import Naming.

(** ** Reading Roman numerals *)

Module Readings.

(** The loop of [_number_to_roman] with the bound of [val[i]] and
    [syms[i]] checked: [None] is the [IndexError] of an index behind the
    last entry. *)
Fixpoint roman_loop_checked (table : list (N * list ascii)) (num : N)
    : option (list ascii) :=
  if (num =? 0)%N then Some []
  else match table with
       | [] => None
       | (v, sym) :: t =>
           app (concat (repeat sym (N.to_nat (num / v))))
             <$> roman_loop_checked t (num mod v)%N
       end.

Definition letter_value (c : ascii) : Z :=
  if Ascii.eqb c "I" then 1
  else if Ascii.eqb c "V" then 5
  else if Ascii.eqb c "X" then 10
  else if Ascii.eqb c "L" then 50
  else if Ascii.eqb c "C" then 100
  else if Ascii.eqb c "D" then 500
  else if Ascii.eqb c "M" then 1000
  else 0.

(** The usual reading of a Roman numeral: a letter before a greater one
    is subtracted, any other is added. *)
Fixpoint roman_value (s : list ascii) : Z :=
  match s with
  | [] => 0
  | c :: t =>
      match t with
      | c' :: _ =>
          if (letter_value c <? letter_value c')%Z
          then roman_value t - letter_value c
          else letter_value c + roman_value t
      | [] => letter_value c
      end
  end%Z.

(** [q] times the symbol of a thousand. *)
Definition thousands (q : nat) : list ascii := concat (repeat (str "M") q).

(** The numbers below a thousand. *)
Definition units : list N := map N.of_nat (seq 0 1000).

Definition roman_letter (c : ascii) : bool :=
  existsb (Ascii.eqb c) (str "MDCLXVI").

End Readings.
Import Readings.

(** ** What a session has done and what it holds *)

Module Session.

(** The events logged since the session was in state [st]. *)
Definition new_events {P : Type} (st st' : @state P) : list event :=
  drop (length (log st)) (log st').

(** The queries the ladder of a title can send. *)
Definition ladder_queries (query : list ascii) : list (list ascii) :=
  [query; query_no_roman query; join (str " ") (take 2 (split query))].

(** A record made from a candidate of the provider. *)
Definition made (r : tmdb_result) : Prop := exists top, r = make_result top.

(** Every cached record was made from a candidate of the provider. *)
Definition cache_made {P : Type} (st : @state P) : Prop :=
  forall k r, tmdb_cache st !! k = Some r -> made r.

(** A year as the regular expressions of the normalizer capture it: four
    digits. *)
Definition year_ok (year : option (list ascii)) : Prop :=
  match year with
  | Some y => length y = 4 /\ Forall (fun c => is_digit c = true) y
  | None => True
  end.

(** An entry of the preview as the batch loop makes it: a record made
    from a candidate when the file was matched, the placeholder when it
    was not. *)
Definition entry_ok (item : list ascii * tmdb_result * status) : Prop :=
  match snd item with
  | found => made (snd (fst item))
  | not_found => snd (fst item) = not_found_dict
  end.

End Session.
Import Session.

(** ** The preview list *)

Module Preview.

(** [hay.startswith(needle)] *)
Fixpoint starts_with (needle hay : list ascii) : bool :=
  match needle, hay with
  | [], _ => true
  | a :: n, b :: h => Ascii.eqb a b && starts_with n h
  | _ :: _, [] => false
  end.

(** [needle in hay] *)
Fixpoint contains (needle hay : list ascii) : bool :=
  starts_with needle hay ||
  match hay with
  | [] => false
  | _ :: t => contains needle t
  end.

(** An entry of [preview_data]: [(filepath, new_name, tmdb_data, status)]. *)
Record preview_entry : Type := PreviewEntry {
  pv_filepath : list ascii;
  pv_new_name : list ascii;
  pv_tmdb_data : tmdb_result;
  pv_status : status
}.

Definition status_eqb (a b : status) : bool :=
  match a, b with
  | found, found | not_found, not_found => true
  | _, _ => false
  end.

Section WithPaths.

(** [os.path.basename] *)
Variable basename : list ascii -> list ascii.

(** The five lines [display_preview_item] appends to the list box. *)
Definition display_preview_item (e : preview_entry) : list (list ascii) :=
  let filename := basename (pv_filepath e) in
  let sanitized_folder := movie_folder_name (pv_tmdb_data e) in
  [ concat (repeat (str "=") 80);
    str "OLD: " ++ filename;
    str "NEW: " ++ pv_new_name e;
    str "FOLDER: " ++ sanitized_folder ++ str "/";
    [] ].

(** The body of the loop of [apply_filters]: whether the entry is
    displayed, none of the [continue]s being taken. *)
Definition shown (search_var filter_var : list ascii) (e : preview_entry) : bool :=
  let search_term := lower search_var in
  if bool_decide (filter_var = str "Not Found") && negb (status_eqb (pv_status e) not_found)
  then false
  else if bool_decide (filter_var = str "Found") && negb (status_eqb (pv_status e) found)
  then false
  else if truthy search_term then
    contains search_term (lower (pv_new_name e))
    || contains search_term (lower (res_title (pv_tmdb_data e)))
    || contains search_term (lower (basename (pv_filepath e)))
  else true.

(** [apply_filters]: the lines of the list box afterwards. *)
Definition apply_filters (search_var filter_var : list ascii)
    (preview_data : list preview_entry) : list (list ascii) :=
  concat (map display_preview_item
            (List.filter (shown search_var filter_var) preview_data)).

End WithPaths.

(** The loop of [on_preview_double_click]: [line_count] and [i] as they
    are before the turn, [movie_index] being 0 when no turn breaks. *)
Fixpoint find_movie {A : Type} (index line_count i : nat) (data : list A) : nat :=
  match data with
  | [] => 0
  | _ :: rest =>
      let line_count := line_count + 5 in
      if index <? line_count then i
      else find_movie index line_count (S i) rest
  end.

(** [on_preview_double_click]: the index [show_tmdb_override] is called
    with, if it is called; [selection] is [curselection()]. *)
Definition on_preview_double_click {A : Type} (selection : list nat)
    (preview_data : list A) : option nat :=
  match selection with
  | [] => None
  | index :: _ =>
      let movie_index := find_movie index 0 0 preview_data in
      if movie_index <? length preview_data then Some movie_index else None
  end.

End Preview.
Import Preview.

(** ** Applying the renaming *)

Module Mover.

(** The exceptions the handlers of [_process_movies] tell apart, each with
    its text [str(e)]: [PermissionError], any other [OSError], any other
    exception. *)
Inductive os_error : Type :=
| PermissionError (msg : list ascii)
| OSError (msg : list ascii)
| OtherException (msg : list ascii).

Definition error_text (e : os_error) : list ascii :=
  match e with
  | PermissionError msg | OSError msg | OtherException msg => msg
  end.

(** The calls that change the file system, with what they raised. *)
Inductive fs_op : Type :=
| OpRename (src dst : list ascii) (raised : option os_error)
| OpCopy (src dst : list ascii) (raised : option os_error)
| OpRemove (path : list ascii) (raised : option os_error).

(** [str(n)] *)
Definition str_of_nat (n : nat) : list ascii :=
  str (NilEmpty.string_of_uint (Nat.to_uint n)).

(** The handlers of the outer [try]: the reason recorded in [failed]. *)
Definition failure_reason (e : os_error) : list ascii :=
  match e with
  | PermissionError _ => str "Permission denied - check file permissions"
  | OSError msg => str "File error: " ++ msg
  | OtherException msg => msg
  end.

Definition is_found (e : preview_entry) : bool := status_eqb (pv_status e) found.

(** The calls [_process_movies] makes on a file system of type [F]:
    [os.path.dirname], [os.path.basename], [os.path.join],
    [os.path.exists], [os.rename], [shutil.copy2] and [os.remove]. *)
Record os_api (F : Type) : Type := OsApi {
  os_dirname : list ascii -> list ascii;
  os_basename : list ascii -> list ascii;
  os_join : list ascii -> list ascii -> list ascii;
  os_exists : F -> list ascii -> bool;
  os_rename : F -> list ascii -> list ascii -> option os_error * F;
  os_copy2 : F -> list ascii -> list ascii -> option os_error * F;
  os_remove : F -> list ascii -> option os_error * F
}.
Arguments OsApi {F}.
Arguments os_dirname {F}.
Arguments os_basename {F}.
Arguments os_join {F}.
Arguments os_exists {F}.
Arguments os_rename {F}.
Arguments os_copy2 {F}.
Arguments os_remove {F}.

(** The state of the loop: the file system, [success], [failed] and the
    calls made so far. *)
Record progress (F : Type) : Type := Progress {
  pr_fs : F;
  pr_success : nat;
  pr_failed : list (list ascii * list ascii);
  pr_ops : list fs_op
}.
Arguments Progress {F}.
Arguments pr_fs {F}.
Arguments pr_success {F}.
Arguments pr_failed {F}.
Arguments pr_ops {F}.

(** What [_process_movies] leaves: the file system, the counts, the
    message shown, and [preview_data] after [clear()]. *)
Record outcome_of_apply (F : Type) : Type := Applied {
  ap_fs : F;
  ap_success : nat;
  ap_failed : list (list ascii * list ascii);
  ap_ops : list fs_op;
  ap_message : list ascii;
  ap_preview_data : list preview_entry
}.
Arguments Applied {F}.
Arguments ap_fs {F}.
Arguments ap_success {F}.
Arguments ap_failed {F}.
Arguments ap_ops {F}.
Arguments ap_message {F}.
Arguments ap_preview_data {F}.

(** The text of the closing dialog. *)
Definition closing_message (success total : nat)
    (failed : list (list ascii * list ascii)) : list ascii :=
  str "Processed " ++ str_of_nat success ++ str "/" ++ str_of_nat total ++ str " movies" ++
  if bool_decide (failed <> []) then
    ["010"%char; "010"%char] ++ str "Failed (" ++ str_of_nat (length failed) ++ str "):" ++
    ["010"%char] ++
    join ["010"%char] (map (fun f => fst f ++ str ": " ++ snd f) (take 5 failed))
  else [].

Section WithFileSystem.

Context {F : Type} (os : os_api F).

(** Step 1: rename the parent folder if different. *)
Definition rename_folder (fs : F) (file_dir new_folder : list ascii)
    : option os_error * F * list fs_op :=
  if bool_decide (file_dir <> new_folder) && negb (os_exists os fs new_folder) then
    let '(r, fs1) := os_rename os fs file_dir new_folder in
    (r, fs1, [OpRename file_dir new_folder r])
  else (None, fs, []).

(** Step 2: rename the file inside the folder if different; when the
    rename is refused with a [PermissionError], copy and delete. *)
Definition rename_file (fs : F) (new_folder old_filename new_filepath : list ascii)
    : option os_error * F * list fs_op :=
  if os_exists os fs new_folder then
    let current_filepath := os_join os new_folder old_filename in
    if os_exists os fs current_filepath && bool_decide (current_filepath <> new_filepath) then
      let '(r, fs1) := os_rename os fs current_filepath new_filepath in
      let renamed := OpRename current_filepath new_filepath r in
      match r with
      | None => (None, fs1, [renamed])
      | Some (PermissionError _) =>
          let '(rc, fs2) := os_copy2 os fs1 current_filepath new_filepath in
          let copied := OpCopy current_filepath new_filepath rc in
          match rc with
          | Some copy_error =>
              (Some (PermissionError
                       (str "Cannot rename or copy file: " ++ error_text copy_error)),
               fs2, [renamed; copied])
          | None =>
              let '(rr, fs3) := os_remove os fs2 current_filepath in
              let removed := OpRemove current_filepath rr in
              match rr with
              | Some copy_error =>
                  (Some (PermissionError
                           (str "Cannot rename or copy file: " ++ error_text copy_error)),
                   fs3, [renamed; copied; removed])
              | None => (None, fs3, [renamed; copied; removed])
              end
          end
      | Some rename_error => (Some rename_error, fs1, [renamed])
      end
    else (None, fs, [])
  else (None, fs, []).

(** The body of the [try] of the loop for one entry: the exception that
    reaches the outer handlers, if any. *)
Definition process_movie (fs : F) (e : preview_entry)
    : option os_error * F * list fs_op :=
  let filepath := pv_filepath e in
  let file_dir := os_dirname os filepath in
  let parent_dir := os_dirname os file_dir in
  let old_filename := os_basename os filepath in
  let new_folder := os_join os parent_dir (movie_folder_name (pv_tmdb_data e)) in
  let new_filepath := os_join os new_folder (pv_new_name e) in
  let '(r1, fs1, ops1) := rename_folder fs file_dir new_folder in
  match r1 with
  | Some rename_error => (Some rename_error, fs1, ops1)
  | None =>
      let '(r2, fs2, ops2) := rename_file fs1 new_folder old_filename new_filepath in
      (r2, fs2, ops1 ++ ops2)
  end.

Fixpoint process_loop (st : progress F) (processable : list preview_entry) : progress F :=
  match processable with
  | [] => st
  | e :: rest =>
      let '(r, fs1, ops) := process_movie (pr_fs st) e in
      let st1 :=
        match r with
        | None => Progress fs1 (S (pr_success st)) (pr_failed st) (pr_ops st ++ ops)
        | Some err =>
            Progress fs1 (pr_success st)
              (pr_failed st ++ [(pv_new_name e, failure_reason err)])
              (pr_ops st ++ ops)
        end in
      process_loop st1 rest
  end.

Definition _process_movies (fs : F) (preview_data : list preview_entry)
    : outcome_of_apply F :=
  let processable := List.filter is_found preview_data in
  let st := process_loop (Progress fs 0 [] []) processable in
  Applied (pr_fs st) (pr_success st) (pr_failed st) (pr_ops st)
    (closing_message (pr_success st) (length processable) (pr_failed st)) [].

End WithFileSystem.

(** Whether the call raised. *)
Definition op_raised (op : fs_op) : bool :=
  match op with
  | OpRename _ _ r | OpCopy _ _ r | OpRemove _ r =>
      match r with Some _ => true | None => false end
  end.

(** Every [os.remove] comes right after a [shutil.copy2] of the removed
    file that did not raise, itself right after the [os.rename] of that
    file to the same target was refused with a [PermissionError]. *)
Definition removes_follow_copies (ops : list fs_op) : Prop :=
  forall i path r,
    ops !! i = Some (OpRemove path r) ->
    exists j dst msg,
      i = S (S j) /\
      ops !! j = Some (OpRename path dst (Some (PermissionError msg))) /\
      ops !! (S j) = Some (OpCopy path dst None).

End Mover.
Import Mover.

(** ** Names dropped on the window *)

Module Dropping.

(** [s.lstrip(chars)] and [s.strip(chars)] *)
Fixpoint lstrip_chars (chars s : list ascii) : list ascii :=
  match s with
  | c :: t => if existsb (Ascii.eqb c) chars then lstrip_chars chars t else s
  | [] => []
  end.

Definition strip_chars (chars s : list ascii) : list ascii :=
  rev (lstrip_chars chars (rev (lstrip_chars chars s))).

(** [s.split(sep)] for a separator that is not empty: [cur] is what was
    read since the last separator, [skip] the number of characters of a
    separator still to pass. *)
Fixpoint split_at (sep : list ascii) (skip : nat) (cur s : list ascii)
    : list (list ascii) :=
  match s with
  | [] => [cur]
  | c :: t =>
      match skip with
      | S k => split_at sep k cur t
      | 0 =>
          if starts_with sep s then cur :: split_at sep (length sep - 1) [] t
          else split_at sep 0 (cur ++ [c]) t
      end
  end.

Definition split_sep (sep s : list ascii) : list (list ascii) := split_at sep 0 [] s.

Definition braces : list ascii := str "{}".
Definition quotes : list ascii := ["034"%char; "'"%char].

(** The names [on_drop] looks up with [os.path.exists], in the order it
    does, [event.data] being a string. *)
Definition dropped_names (data : list ascii) : list (list ascii) :=
  if truthy data then
    let files :=
      if contains (str "{") data
      then map (strip_chars braces) (split_sep (str "} {") data)
      else split data in
    map (fun f => strip (strip_chars quotes (strip_chars braces f))) files
  else [].

(** A name in braces, as a list of Tcl has it. *)
Definition braced (p : list ascii) : list ascii := str "{" ++ p ++ str "}".

Definition is_brace (c : ascii) : bool := existsb (Ascii.eqb c) braces.
Definition is_quote (c : ascii) : bool := existsb (Ascii.eqb c) quotes.

(** A name that the cleaning of [on_drop] leaves as it is: no brace in it,
    no quote and no white space at its ends. *)
Definition plain (p : list ascii) : Prop :=
  Forall (fun c => is_brace c = false) p /\
  strip_chars quotes p = p /\ strip p = p.

(** A character that no cleaning step of [on_drop] takes from the end of
    a name. *)
Definition edge_ok (c : ascii) : bool := negb (is_brace c || is_quote c || is_space c).

End Dropping.
Import Dropping.

(** ** A file system and a preview used as instances *)

Module Samples.

(** [os.path.basename], [os.path.dirname] and [os.path.join] on paths
    with [/] between their parts and none at their end. *)
Fixpoint before_slash (l : list ascii) : list ascii :=
  match l with
  | [] => []
  | c :: t => if Ascii.eqb c "/" then [] else c :: before_slash t
  end.

Fixpoint after_slash (l : list ascii) : list ascii :=
  match l with
  | [] => []
  | c :: t => if Ascii.eqb c "/" then t else after_slash t
  end.

Definition base_of (p : list ascii) : list ascii := rev (before_slash (rev p)).
Definition dir_of (p : list ascii) : list ascii := rev (after_slash (rev p)).
Definition path_join (a b : list ascii) : list ascii := a ++ str "/" ++ b.

(** A file system as the list of the paths that exist. *)
Definition files : Type := list (list ascii).

Definition path_exists (fs : files) (p : list ascii) : bool := bool_decide (p ∈ fs).

Definition no_such_file : os_error := OSError (str "No such file or directory").

(** Where a path is after [src] was renamed to [dst]. *)
Definition moved (src dst p : list ascii) : list ascii :=
  if bool_decide (p = src) then dst
  else if starts_with (src ++ str "/") p then dst ++ drop (length src) p
  else p.

Definition do_rename (fs : files) (src dst : list ascii) : option os_error * files :=
  if path_exists fs src then (None, map (moved src dst) fs) else (Some no_such_file, fs).

Definition do_copy (fs : files) (src dst : list ascii) : option os_error * files :=
  if path_exists fs src then (None, dst :: fs) else (Some no_such_file, fs).

Definition do_remove (fs : files) (p : list ascii) : option os_error * files :=
  if path_exists fs p then (None, List.filter (fun q => negb (bool_decide (q = p))) fs)
  else (Some no_such_file, fs).

(** A volume on which nothing can be renamed. *)
Definition refuse_rename (fs : files) (src dst : list ascii) : option os_error * files :=
  (Some (PermissionError (str "Permission denied")), fs).

(** Two files of a preview: one that was matched, one that was not. *)
Definition rocky_entry : preview_entry :=
  PreviewEntry (str "/movies/rip/Rocky.II.1979.DVDRip.avi") (str "Rocky II (1979).avi")
    (make_result rocky_ii) found.

Definition unknown_entry : preview_entry :=
  PreviewEntry (str "/movies/misc/qwerty.mkv") (str "qwerty.mkv") not_found_dict not_found.

Definition sample_preview : list preview_entry := [unknown_entry; rocky_entry].

Definition sample_files : files :=
  [ str "/movies"; str "/movies/rip"; str "/movies/rip/Rocky.II.1979.DVDRip.avi";
    str "/movies/misc"; str "/movies/misc/qwerty.mkv" ].

(** The same with the folder of the movie already there. *)
Definition crowded_files : files := str "/movies/Rocky II (1979)" :: sample_files.

(** The file system above, and the volume that refuses every rename. *)
Definition plain_os : os_api files :=
  OsApi dir_of base_of path_join path_exists do_rename do_copy do_remove.

Definition locked_os : os_api files :=
  OsApi dir_of base_of path_join path_exists refuse_rename do_copy do_remove.

End Samples.
Import Samples.
Import Mover.

(** * Facts *)

(** ** Python's string methods *)

Section StringFacts.

Lemma split_cons_space c t : is_space c = true -> split (c :: t) = split t.
Proof. intros H. simpl. rewrite H. reflexivity. Qed.

Lemma split_single c : is_space c = false -> split [c] = [[c]].
Proof. intros H. simpl. rewrite H. reflexivity. Qed.

Lemma split_cons_end c c' t :
  is_space c = false -> is_space c' = true ->
  split (c :: c' :: t) = [c] :: split (c' :: t).
Proof. intros H H'. cbn [split]. rewrite H, H'. reflexivity. Qed.

Lemma split_cons_word c c' t :
  is_space c = false -> is_space c' = false ->
  split (c :: c' :: t) =
    match split (c' :: t) with
    | w :: ws => (c :: w) :: ws
    | [] => [[c]]
    end.
Proof. intros H H'. cbn [split]. rewrite H, H'. reflexivity. Qed.

Lemma split_words (s : list ascii) : Forall word_ok (split s).
Proof.
  induction s as [|c t IH]; [constructor|].
  destruct (is_space c) eqn:Hc.
  - rewrite split_cons_space by exact Hc. exact IH.
  - destruct t as [|c' t'].
    + rewrite split_single by exact Hc.
      repeat constructor; [discriminate | exact Hc].
    + destruct (is_space c') eqn:Hc'.
      * rewrite split_cons_end by assumption.
        constructor; [|exact IH]. repeat constructor; [discriminate | exact Hc].
      * rewrite split_cons_word by assumption.
        destruct (split (c' :: t')) as [|w ws].
        -- repeat constructor; [discriminate | exact Hc].
        -- inversion IH as [|? ? [Hne Hw] Hws]; subst.
           constructor; [|exact Hws].
           split; [discriminate | constructor; assumption].
Qed.

Lemma split_word (w : list ascii) : word_ok w -> split w = [w].
Proof.
  intros [Hne Hw]. induction w as [|c t IH]; [contradiction|].
  inversion Hw as [|? ? Hc Ht]; subst.
  destruct t as [|c' t'].
  - apply split_single, Hc.
  - inversion Ht as [|? ? Hc' _]; subst.
    rewrite split_cons_word by assumption.
    rewrite IH; [reflexivity | discriminate | exact Ht].
Qed.

Lemma split_word_space (w rest : list ascii) :
  word_ok w -> split (w ++ " "%char :: rest) = w :: split rest.
Proof.
  intros [Hne Hw]. induction w as [|c t IH]; [contradiction|].
  inversion Hw as [|? ? Hc Ht]; subst.
  destruct t as [|c' t'].
  - simpl app. rewrite split_cons_end by (assumption || reflexivity).
    rewrite split_cons_space by reflexivity. reflexivity.
  - inversion Ht as [|? ? Hc' _]; subst.
    change ((c :: c' :: t') ++ " "%char :: rest)
      with (c :: c' :: (t' ++ " "%char :: rest)).
    rewrite split_cons_word by assumption.
    change (c' :: t' ++ " "%char :: rest) with ((c' :: t') ++ " "%char :: rest).
    rewrite IH; [reflexivity | discriminate | exact Ht].
Qed.

Lemma split_join (ws : list (list ascii)) :
  Forall word_ok ws -> split (join (str " ") ws) = ws.
Proof.
  induction 1 as [|w ws Hw Hws IH]; [reflexivity|].
  destruct ws as [|w' ws'].
  - simpl. apply split_word, Hw.
  - change (join (str " ") (w :: w' :: ws'))
      with (w ++ " "%char :: join (str " ") (w' :: ws')).
    rewrite split_word_space by exact Hw. rewrite IH. reflexivity.
Qed.

Lemma lstrip_word_first c t : is_space c = false -> lstrip (c :: t) = c :: t.
Proof. intros H. simpl. rewrite H. reflexivity. Qed.

Lemma rstrip_word_last l c : is_space c = false -> rstrip (l ++ [c]) = l ++ [c].
Proof.
  intros H. unfold rstrip. rewrite rev_unit, lstrip_word_first by exact H.
  simpl. rewrite rev_involutive. reflexivity.
Qed.

Lemma word_first w : word_ok w -> exists c t, w = c :: t /\ is_space c = false.
Proof.
  intros [Hne Hw]. destruct w as [|c t]; [contradiction|].
  inversion Hw; subst. eauto.
Qed.

Lemma word_last w : word_ok w -> exists l c, w = l ++ [c] /\ is_space c = false.
Proof.
  intros [Hne Hw]. destruct (exists_last Hne) as (l & c & ->).
  apply Forall_app in Hw as [_ Hc]. inversion Hc; subst. eauto.
Qed.

Lemma join_first ws :
  Forall word_ok ws -> ws <> [] ->
  exists c t, join (str " ") ws = c :: t /\ is_space c = false.
Proof.
  intros Hws Hne. destruct ws as [|w ws]; [contradiction|].
  inversion Hws as [|? ? Hw _]; subst.
  destruct (word_first _ Hw) as (c & t & -> & Hc).
  destruct ws; simpl; eauto.
Qed.

Lemma join_last ws :
  Forall word_ok ws -> ws <> [] ->
  exists l c, join (str " ") ws = l ++ [c] /\ is_space c = false.
Proof.
  induction 1 as [|w ws Hw Hws IH]; intros Hne; [contradiction|].
  destruct ws as [|w' ws'].
  - simpl. apply word_last, Hw.
  - destruct IH as (l & c & Hl & Hc); [discriminate|].
    exists (w ++ str " " ++ l), c. split; [|exact Hc].
    change (join (str " ") (w :: w' :: ws'))
      with (w ++ str " " ++ join (str " ") (w' :: ws')).
    rewrite Hl, <- !app_assoc. reflexivity.
Qed.

(** A string joined from words has no white space at its ends. *)
Lemma strip_join ws :
  Forall word_ok ws -> strip (join (str " ") ws) = join (str " ") ws.
Proof.
  intros Hws. destruct ws as [|w ws]; [reflexivity|].
  destruct (join_first _ Hws) as (c & t & Hj & Hc); [discriminate|].
  destruct (join_last _ Hws) as (l & c' & Hj' & Hc'); [discriminate|].
  unfold strip. rewrite Hj, lstrip_word_first by exact Hc.
  rewrite <- Hj, Hj'. apply rstrip_word_last, Hc'.
Qed.

Lemma strip_collapse s : strip (collapse_spaces s) = collapse_spaces s.
Proof. apply strip_join, split_words. Qed.

Lemma collapse_collapse s : collapse_spaces (collapse_spaces s) = collapse_spaces s.
Proof. unfold collapse_spaces. rewrite split_join by apply split_words. reflexivity. Qed.

End StringFacts.

(** ** Separators and white space in cleaned titles *)

Section SeparatorFacts.

Lemma Forall_lstrip (Q : ascii -> Prop) s : Forall Q s -> Forall Q (lstrip s).
Proof.
  induction 1 as [|c t Hc Ht IH]; [constructor|].
  simpl. destruct (is_space c); [exact IH | constructor; assumption].
Qed.

Lemma Forall_strip (Q : ascii -> Prop) s : Forall Q s -> Forall Q (strip s).
Proof.
  intros H. unfold strip, rstrip.
  apply Forall_rev, Forall_lstrip, Forall_rev, Forall_lstrip, H.
Qed.

Lemma Forall_split (Q : ascii -> Prop) s : Forall Q s -> Forall (Forall Q) (split s).
Proof.
  induction 1 as [|c t Hc Ht IH]; [constructor|].
  destruct (is_space c) eqn:Ec.
  - rewrite split_cons_space by exact Ec. exact IH.
  - destruct t as [|c' t'].
    + rewrite split_single by exact Ec. repeat constructor. exact Hc.
    + destruct (is_space c') eqn:Ec'.
      * rewrite split_cons_end by assumption.
        constructor; [repeat constructor; exact Hc | exact IH].
      * rewrite split_cons_word by assumption.
        destruct (split (c' :: t')) as [|w ws].
        -- repeat constructor. exact Hc.
        -- inversion IH; subst. constructor; [constructor|]; assumption.
Qed.

Lemma Forall_join (Q : ascii -> Prop) ws :
  Q " "%char -> Forall (Forall Q) ws -> Forall Q (join (str " ") ws).
Proof.
  intros Hsp. induction 1 as [|w ws Hw Hws IH]; [constructor|].
  destruct ws as [|w' ws']; [exact Hw|].
  change (join (str " ") (w :: w' :: ws'))
    with (w ++ " "%char :: join (str " ") (w' :: ws')).
  apply Forall_app. split; [exact Hw | constructor; assumption].
Qed.

Lemma Forall_collapse (Q : ascii -> Prop) s :
  Q " "%char -> Forall Q s -> Forall Q (collapse_spaces s).
Proof. intros Hsp H. apply Forall_join; [exact Hsp | apply Forall_split, H]. Qed.

(** Greedy repetition before the end of the pattern always matches. *)
Lemma star_greedy_end (p : ascii -> bool) t : forall prev pos grp,
  exists c, star true p Some prev pos grp t = Some c /\ pos <= c_pos c.
Proof.
  induction t as [|a t IH]; intros prev pos grp; simpl.
  - eexists; split; [reflexivity | simpl; lia].
  - destruct (p a).
    + destruct (IH (Some a) (S pos) grp) as (c & -> & Hle).
      exists c. split; [reflexivity | lia].
    + eexists; split; [reflexivity | simpl; lia].
Qed.

Lemma match_at_seps_nil prev pos : match_at seps_re prev pos [] = None.
Proof. reflexivity. Qed.

Lemma match_at_seps_cons prev pos a t :
  match_at seps_re prev pos (a :: t) =
    if sep_chr a then star true sep_chr Some (Some a) (S pos) None t else None.
Proof. reflexivity. Qed.

Lemma match_at_seps_none prev pos a t :
  sep_chr a = false -> match_at seps_re prev pos (a :: t) = None.
Proof. intros H. rewrite match_at_seps_cons, H. reflexivity. Qed.

Lemma match_at_seps_some prev pos a t :
  sep_chr a = true ->
  exists c, match_at seps_re prev pos (a :: t) = Some c /\ pos < c_pos c.
Proof.
  intros H. rewrite match_at_seps_cons, H.
  destruct (star_greedy_end sep_chr t (Some a) (S pos) None) as (c & Hc & Hle).
  exists c. split; [exact Hc | lia].
Qed.

(** Separator normalization leaves no separator. *)
Lemma seps_sub_no_seps s : forall prev pos skip,
  no_seps (sub_from seps_re (fun _ => str " ") prev pos skip s).
Proof.
  induction s as [|a t IH]; intros prev pos skip.
  - destruct skip; simpl; [repeat constructor | constructor].
  - destruct skip as [|n]; [|apply IH].
    cbn [sub_from]. destruct (sep_chr a) eqn:Ha.
    + destruct (match_at_seps_some prev pos a t Ha) as (c & -> & Hlt).
      destruct (c_pos c - pos) as [|n] eqn:Hd; [lia|].
      apply Forall_app. split; [repeat constructor | apply IH].
    + rewrite match_at_seps_none by exact Ha. constructor; [exact Ha | apply IH].
Qed.

(** It leaves a text without separators as it is. *)
Lemma seps_sub_id s : forall prev pos,
  no_seps s -> sub_from seps_re (fun _ => str " ") prev pos 0 s = s.
Proof.
  induction s as [|a t IH]; intros prev pos Hs; [reflexivity|].
  inversion Hs as [|? ? Ha Ht]; subst.
  cbn [sub_from]. rewrite match_at_seps_none by exact Ha.
  rewrite IH by exact Ht. reflexivity.
Qed.

Lemma seps_to_spaces_no_seps s : no_seps (seps_to_spaces s).
Proof. apply Forall_strip, seps_sub_no_seps. Qed.

Lemma clean_with_no_seps markers name : no_seps (clean_with markers name).
Proof.
  unfold clean_with. apply Forall_collapse; [reflexivity|].
  apply seps_to_spaces_no_seps.
Qed.

Lemma clean_with_stripped markers name :
  strip (clean_with markers name) = clean_with markers name.
Proof. apply strip_collapse. Qed.

Lemma seps_stable markers name :
  seps_to_spaces (clean_with markers name) = clean_with markers name.
Proof.
  unfold seps_to_spaces, sub, sub_fn.
  rewrite seps_sub_id by apply clean_with_no_seps.
  apply clean_with_stripped.
Qed.

Lemma last_steps_stable markers name :
  collapse_spaces (seps_to_spaces (clean_with markers name)) = clean_with markers name.
Proof.
  unfold seps_to_spaces, sub, sub_fn.
  rewrite seps_sub_id by apply clean_with_no_seps.
  rewrite clean_with_stripped. apply collapse_collapse.
Qed.

(** A release-group token needs a separator before it. *)
Lemma match_at_username_none prev pos rest :
  match rest with a :: _ => sep_chr a = false | [] => True end ->
  match_at username_re prev pos rest = None.
Proof.
  intros H. unfold match_at, username_re. cbn [seqs rmatch c_rest].
  destruct rest as [|a t]; [reflexivity|]. rewrite H. reflexivity.
Qed.

Lemma username_sub_id repl s : forall prev pos,
  no_seps s -> sub_from username_re repl prev pos 0 s = s.
Proof.
  induction s as [|a t IH]; intros prev pos Hs.
  - cbn [sub_from]. rewrite match_at_username_none by exact I. reflexivity.
  - inversion Hs as [|? ? Ha Ht]; subst. cbn [sub_from].
    rewrite match_at_username_none by exact Ha.
    rewrite IH by exact Ht. reflexivity.
Qed.

Lemma usernames_stable markers name :
  strip_usernames (clean_with markers name) = clean_with markers name.
Proof.
  unfold strip_usernames, sub, sub_fn.
  rewrite username_sub_id by apply clean_with_no_seps.
  apply clean_with_stripped.
Qed.

End SeparatorFacts.

(** C9, as the code has it (normalizer). Cleaning as a whole is not
    idempotent, but three of its steps are on a cleaned title: such a title
    has no [.], [_] or [-] and no white space at its ends, so the removal
    of release-group tokens, separator normalization and white-space
    collapse leave it as it is. Cleaning it again gives the same title
    whenever the removal steps find nothing more in it. *)
Theorem C9_last_steps_idempotent (name : list ascii) :
  no_seps (clean_name name) /\
  strip (clean_name name) = clean_name name /\
  strip_usernames (clean_name name) = clean_name name /\
  seps_to_spaces (clean_name name) = clean_name name /\
  collapse_spaces (clean_name name) = clean_name name /\
  (removal_steps batch_markers (clean_name name) = clean_name name ->
   clean_name (clean_name name) = clean_name name).
Proof.
  split; [apply clean_with_no_seps|].
  split; [apply clean_with_stripped|].
  split; [apply usernames_stable|].
  split; [apply seps_stable|].
  split; [apply collapse_collapse|].
  intros H. unfold clean_name at 1, clean_with.
  fold (removal_steps batch_markers (clean_name name)). rewrite H.
  apply last_steps_stable.
Qed.

(** C9, refuted as stated: [a_1080p] is cleaned to [a 1080p], and
    cleaning that gives [a]. *)
Lemma C9_cleaning_twice_differs :
  clean_name (str "a_1080p") = str "a 1080p" /\
  clean_name (clean_name (str "a_1080p")) = str "a" /\
  clean_name (clean_name (str "a_1080p")) <> clean_name (str "a_1080p").
Proof.
  split; [vm_compute; reflexivity|]. split; [vm_compute; reflexivity|].
  vm_compute. discriminate.
Qed.


(** ** The bracket step *)

Section BracketFacts.

Lemma close_not_dot c : is_close c = true -> dot c = true.
Proof.
  destruct c as [[] [] [] [] [] [] [] []]; vm_compute; intros H;
    first [discriminate H | reflexivity].
Qed.

Lemma open_not_close c : is_open c = true -> is_close c = false.
Proof.
  destruct c as [[] [] [] [] [] [] [] []]; vm_compute; intros H;
    first [discriminate H | reflexivity].
Qed.

Lemma star_lazy_close t : forall prev pos grp,
  c_pos <$> star false dot (rmatch (Cls is_close) Some) prev pos grp t
  = (fun n => pos + n + 1) <$> close_at t.
Proof.
  induction t as [|a t IH]; intros prev pos grp; [reflexivity|].
  cbn [star close_at rmatch c_rest c_pos c_grp].
  destruct (is_close a) eqn:Ha.
  - rewrite (close_not_dot _ Ha). simpl. f_equal. lia.
  - destruct (dot a); [|reflexivity].
    rewrite IH. destruct (close_at t); simpl; [f_equal; lia | reflexivity].
Qed.

Lemma match_at_bracket_cons prev pos o t :
  match_at bracket_re prev pos (o :: t) =
    if is_open o
    then star false dot (rmatch (Cls is_close) Some) (Some o) (S pos) None t
    else None.
Proof. reflexivity. Qed.

Lemma bracket_len prev pos rest :
  (fun c => c_pos c - pos) <$> match_at bracket_re prev pos rest = span_len rest.
Proof.
  destruct rest as [|o t]; [reflexivity|].
  rewrite match_at_bracket_cons. unfold span_len.
  destruct (is_open o); [|reflexivity].
  pose proof (star_lazy_close t (Some o) (S pos) None) as H.
  destruct (star false dot (rmatch (Cls is_close) Some) (Some o) (S pos) None t) as [c|];
    destruct (close_at t) as [n|]; simpl in *; try discriminate H; [|reflexivity].
  inversion H as [Hc]. f_equal. lia.
Qed.

Lemma sub_from_zero r repl prev pos rest :
  sub_from r repl prev pos 0 rest =
    match (fun c => c_pos c - pos) <$> match_at r prev pos rest with
    | Some len =>
        repl (take len rest) ++
        match rest with
        | [] => []
        | a :: t =>
            match len with
            | 0 => a :: sub_from r repl (Some a) (S pos) 0 t
            | S n => sub_from r repl (Some a) (S pos) n t
            end
        end
    | None =>
        match rest with
        | [] => []
        | a :: t => a :: sub_from r repl (Some a) (S pos) 0 t
        end
    end.
Proof. destruct rest; simpl; destruct (match_at r prev pos _); reflexivity. Qed.

Lemma bsub_from s : forall skip prev pos,
  sub_from bracket_re (fun _ => []) prev pos skip s = bsub (drop skip s).
Proof.
  induction s as [|a t IH]; intros skip prev pos.
  - destruct skip; reflexivity.
  - destruct skip as [|n]; [|apply IH].
    unfold bsub, sub, sub_fn. rewrite drop_0.
    rewrite (sub_from_zero _ _ prev pos), (sub_from_zero _ _ None 0), !bracket_len.
    destruct (span_len (a :: t)) as [[|n]|]; simpl; rewrite !IH; reflexivity.
Qed.

Lemma bsub_nil : bsub [] = [].
Proof. reflexivity. Qed.

Lemma bsub_cons a t :
  bsub (a :: t) =
    match span_len (a :: t) with
    | Some (S n) => bsub (drop n t)
    | _ => a :: bsub t
    end.
Proof.
  unfold bsub at 1, sub, sub_fn. rewrite sub_from_zero, bracket_len.
  destruct (span_len (a :: t)) as [[|n]|]; simpl; rewrite !bsub_from, ?drop_0;
    reflexivity.
Qed.

Lemma bsub_keep a t : is_open a = false \/ close_at t = None -> bsub (a :: t) = a :: bsub t.
Proof.
  intros H. rewrite bsub_cons. unfold span_len.
  destruct H as [->| ->]; [reflexivity|]. destruct (is_open a); reflexivity.
Qed.

Lemma bsub_span o t n :
  is_open o = true -> close_at t = Some n -> bsub (o :: t) = bsub (drop (S n) t).
Proof.
  intros Ho Hn. rewrite bsub_cons. unfold span_len. rewrite Ho, Hn. simpl.
  replace (n + 2) with (S (S n)) by lia. reflexivity.
Qed.

Lemma close_at_span mid c post :
  span_body mid -> is_close c = true -> close_at (mid ++ c :: post) = Some (length mid).
Proof.
  intros Hm Hc. induction Hm as [|a mid [Ha Hd] _ IH]; simpl.
  - rewrite Hc. reflexivity.
  - rewrite Ha, Hd, IH. reflexivity.
Qed.

Lemma close_at_split t : forall n,
  close_at t = Some n ->
  exists mid c post,
    t = mid ++ c :: post /\ length mid = n /\ span_body mid /\ is_close c = true.
Proof.
  induction t as [|a t IH]; intros n H; [discriminate|].
  simpl in H. destruct (is_close a) eqn:Ha.
  - inversion H; subst. exists [], a, t. repeat split; [constructor | exact Ha].
  - destruct (dot a) eqn:Hd; [|discriminate].
    destruct (close_at t) as [m|]; [|discriminate]. inversion H; subst.
    destruct (IH m eq_refl) as (mid & c & post & -> & Hl & Hb & Hc).
    exists (a :: mid), c, post. simpl. rewrite Hl.
    repeat split; [constructor; [split|]; assumption | exact Hc].
Qed.

(** Text without closing delimiter has no span. *)
Lemma close_at_none t : Forall (fun c => is_close c = false) t -> close_at t = None.
Proof.
  induction 1 as [|a t Ha _ IH]; [reflexivity|].
  simpl. rewrite Ha, IH. destruct (dot a); reflexivity.
Qed.

Lemma close_at_app_unclosed pre post :
  close_at post = None -> close_at (pre ++ post) = close_at pre.
Proof.
  intros Hp. induction pre as [|a pre IH]; [exact Hp|].
  simpl. rewrite IH. reflexivity.
Qed.

Lemma close_at_lt t n : close_at t = Some n -> n < length t.
Proof.
  intros H. destruct (close_at_split t n H) as (mid & c & post & -> & <- & _).
  rewrite length_app. simpl. lia.
Qed.

Lemma drop_span (mid : list ascii) c post :
  drop (S (length mid)) (mid ++ c :: post) = post.
Proof. induction mid as [|a mid IH]; [reflexivity | exact IH]. Qed.

Lemma bsub_strips_len n : forall s, length s <= n -> strips s (bsub s).
Proof.
  induction n as [|n IH]; intros s Hlen.
  - destruct s; [rewrite bsub_nil; constructor | simpl in Hlen; lia].
  - destruct s as [|a t]; [rewrite bsub_nil; constructor|]. simpl in Hlen.
    destruct (is_open a) eqn:Ha.
    + destruct (close_at t) as [m|] eqn:Hm.
      * rewrite (bsub_span a t m Ha Hm).
        destruct (close_at_split t m Hm) as (mid & c & post & -> & Hl & Hb & Hc).
        rewrite <- Hl.
        rewrite drop_span.
        apply strips_span; try assumption.
        apply IH. rewrite length_app in Hlen. simpl in Hlen. lia.
      * rewrite bsub_keep by (right; exact Hm).
        apply strips_keep; [right; exact Hm | apply IH; lia].
    + rewrite bsub_keep by (left; exact Ha).
      apply strips_keep; [left; exact Ha | apply IH; lia].
Qed.

Lemma bsub_strips s : strips s (bsub s).
Proof. apply (bsub_strips_len (length s)). lia. Qed.

Lemma strips_bsub s out : strips s out -> bsub s = out.
Proof.
  induction 1 as [|o mid c post out Ho Hb Hc _ IH|a t out Hk _ IH].
  - reflexivity.
  - rewrite (bsub_span o _ (length mid) Ho (close_at_span mid c post Hb Hc)).
    rewrite drop_span. exact IH.
  - rewrite bsub_keep by exact Hk. rewrite IH. reflexivity.
Qed.

Lemma bsub_no_open pre s :
  Forall (fun x => is_open x = false) pre -> bsub (pre ++ s) = pre ++ bsub s.
Proof.
  induction 1 as [|a pre Ha _ IH]; [reflexivity|].
  simpl. rewrite bsub_keep by (left; exact Ha). rewrite IH. reflexivity.
Qed.

Lemma bsub_no_close s : Forall (fun x => is_close x = false) s -> bsub s = s.
Proof.
  induction 1 as [|a s Ha Hs IH]; [reflexivity|].
  rewrite bsub_keep by (right; apply close_at_none, Hs). rewrite IH. reflexivity.
Qed.

Lemma bsub_unclosed_len n : forall pre o post,
  length pre <= n -> is_open o = true -> Forall (fun x => is_close x = false) post ->
  bsub (pre ++ o :: post) = bsub pre ++ o :: post.
Proof.
  induction n as [|n IH]; intros pre o post Hlen Ho Hp.
  - destruct pre; [|simpl in Hlen; lia]. simpl.
    rewrite bsub_keep by (right; apply close_at_none, Hp).
    rewrite (bsub_no_close post Hp). reflexivity.
  - destruct pre as [|a pre].
    + simpl. rewrite bsub_keep by (right; apply close_at_none, Hp).
      rewrite (bsub_no_close post Hp). reflexivity.
    + simpl in Hlen.
      assert (Hu : close_at (o :: post) = None).
      { apply close_at_none. constructor; [apply open_not_close, Ho | exact Hp]. }
      change ((a :: pre) ++ o :: post) with (a :: (pre ++ o :: post)).
      rewrite !bsub_cons. unfold span_len.
      rewrite (close_at_app_unclosed pre (o :: post) Hu).
      destruct (is_open a); [|rewrite IH by (assumption || lia); reflexivity].
      destruct (close_at pre) as [m|] eqn:Hm; simpl;
        [|rewrite IH by (assumption || lia); reflexivity].
      pose proof (close_at_lt pre m Hm) as Hlt.
      replace (m + 2) with (S (S m)) by lia.
      rewrite drop_app_le by lia.
      apply IH; [rewrite length_drop; lia | assumption | assumption].
Qed.

End BracketFacts.

(** C10 (normalizer, bracket step). The substitution of the bracket
    step removes exactly the spans of the text, read from the left, where
    a span opens with [[] or [{], runs over as little as it can and closes
    with []] or [}]: [strips] holds between a text and its substitution,
    and only that. So a span behind text without opening delimiter is
    removed whichever of the two closing delimiters ends it, and an
    opening delimiter that no closing delimiter follows stays where it is,
    with all the text behind it. *)
Theorem C10_bracket_spans_removed :
  (forall s out, strips s out <-> sub bracket_re [] s = out) /\
  (forall pre o mid c post,
     Forall (fun x => is_open x = false) pre ->
     is_open o = true -> span_body mid -> is_close c = true ->
     sub bracket_re [] (pre ++ o :: mid ++ c :: post)
       = pre ++ sub bracket_re [] post) /\
  (forall pre o post,
     is_open o = true -> Forall (fun x => is_close x = false) post ->
     sub bracket_re [] (pre ++ o :: post) = sub bracket_re [] pre ++ o :: post) /\
  strip_brackets (str "Heat [1995} {x264] [cd1") = str "Heat   [cd1".
Proof.
  split.
  { intros s out. split; [apply strips_bsub | intros <-; apply bsub_strips]. }
  split.
  { intros pre o mid c post Hpre Ho Hb Hc. fold (bsub (pre ++ o :: mid ++ c :: post)).
    rewrite bsub_no_open by exact Hpre.
    rewrite (bsub_span o _ (length mid) Ho (close_at_span mid c post Hb Hc)).
    rewrite drop_span. reflexivity. }
  split.
  { intros pre o post Ho Hpost.
    apply (bsub_unclosed_len (length pre)); [lia | exact Ho | exact Hpost]. }
  vm_compute. reflexivity.
Qed.


(** ** The resolver *)

Section ResolverFacts.
Context {P : Type} (ask : P -> params -> response * P).

Lemma requests_app (a b : list event) : requests (a ++ b) = requests a ++ requests b.
Proof. apply omap_app. Qed.

Lemma requests_closing (query : list ascii) (o : outcome) :
  requests [closing_event query o] = [].
Proof. destruct o as [r| |[| |msg]]; reflexivity. Qed.

Lemma attempted_cons_skipped key lang q y ss :
  skipped q = true -> attempted key lang ((q, y) :: ss) = attempted key lang ss.
Proof.
  intros Hs. unfold attempted. rewrite filter_cons. simpl. rewrite Hs. simpl.
  destruct (decide (Is_true false)) as [[]|]. reflexivity.
Qed.

Lemma attempted_cons_sent key lang q y ss :
  skipped q = false ->
  attempted key lang ((q, y) :: ss) = make_params key lang q y :: attempted key lang ss.
Proof.
  intros Hs. unfold attempted. rewrite filter_cons. simpl. rewrite Hs. simpl.
  destruct (decide (Is_true true)) as [|n]; [reflexivity | destruct n; exact I].
Qed.

Lemma requests_exchange q y prm resp evs :
  requests (EvSearching q y :: EvRequest prm resp :: evs) = (prm, resp) :: requests evs.
Proof. reflexivity. Qed.

(** The requests of a ladder: answers with no result, then, unless the
    ladder is exhausted, one last answer that is a hit or a failure; they
    are the first of the searches that are not skipped. *)
Lemma execute_requests key lang ss : forall p o p' evs,
  execute ask key lang p ss = (o, p', evs) ->
  exists before,
    Forall empty_answer before /\
    match o with
    | Exhausted =>
        requests evs = before /\ map fst (requests evs) = attempted key lang ss
    | Hit r =>
        exists prm top rest,
          requests evs = before ++ [(prm, Results (top :: rest))] /\
          r = make_result top
    | Failed e => exists prm, requests evs = before ++ [(prm, Raised e)]
    end /\
    map fst (requests evs) = take (length (requests evs)) (attempted key lang ss).
Proof.
  induction ss as [|[q y] ss IH]; intros p o p' evs H; simpl in H.
  - inversion H; subst. exists []. repeat split; constructor.
  - destruct (skipped q) eqn:Hs.
    + rewrite attempted_cons_skipped by exact Hs. eapply IH; exact H.
    + rewrite attempted_cons_sent by exact Hs.
      destruct (ask p (make_params key lang q y)) as [resp p1] eqn:Hask.
      destruct resp as [e|[|top rest]].
      * inversion H; subst. exists []. split; [constructor|].
        split; [exists (make_params key lang q y); reflexivity | reflexivity].
      * destruct (execute ask key lang p1 ss) as [[o1 p2] evs1] eqn:Hex.
        inversion H; subst. destruct (IH _ _ _ _ Hex) as (before & Hb & Ho & Hpre).
        exists ((make_params key lang q y, Results []) :: before).
        split; [constructor; [reflexivity | exact Hb]|].
        rewrite requests_exchange. simpl.
        split.
        -- destruct o as [r| |e].
           ++ destruct Ho as (prm & top & rest & Hr & ->).
              exists prm, top, rest. rewrite Hr. split; reflexivity.
           ++ destruct Ho as [Hr Hm]. rewrite Hr, <- Hm, Hr. split; reflexivity.
           ++ destruct Ho as (prm & Hr). exists prm. rewrite Hr. reflexivity.
        -- f_equal. exact Hpre.
      * inversion H; subst. exists []. split; [constructor|].
        split; [exists (make_params key lang q y), top, rest; split; reflexivity
               | reflexivity].
Qed.

(** A resolution whose key is cached returns the entry and does nothing. *)
Lemma search_tmdb_cached st query year r :
  tmdb_cache st !! cache_key query year = Some r ->
  search_tmdb ask st query year = (Some r, st).
Proof. intros H. unfold search_tmdb. rewrite H. reflexivity. Qed.

(** A resolution without a credential. *)
Lemma search_tmdb_no_key st query year :
  tmdb_cache st !! cache_key query year = None ->
  truthy (api_key st) = false ->
  search_tmdb ask st query year =
    (None, State (api_key st) (language st) (tmdb_cache st) (provider st)
             (log st ++ [EvErrorPrint query (str "API key not configured")])).
Proof. intros H Hk. unfold search_tmdb. rewrite H, Hk. reflexivity. Qed.

(** A resolution that runs the ladder. *)
Lemma search_tmdb_ladder st query year o p' evs :
  tmdb_cache st !! cache_key query year = None ->
  truthy (api_key st) = true ->
  execute ask (api_key st) (language st) (provider st) (searches query year)
    = (o, p', evs) ->
  search_tmdb ask st query year =
    (match o with Hit r => Some r | _ => None end,
     State (api_key st) (language st)
       (match o with
        | Hit r => <[cache_key query year := r]> (tmdb_cache st)
        | _ => tmdb_cache st
        end)
       p' (log st ++ evs ++ [closing_event query o])).
Proof.
  intros H Hk Hex. unfold search_tmdb. rewrite H, Hk, Hex. simpl.
  destruct o; reflexivity.
Qed.

(** The three ways a resolution goes, with the events it adds. *)
Lemma search_tmdb_cases st query year res st' :
  search_tmdb ask st query year = (res, st') ->
  (exists r, tmdb_cache st !! cache_key query year = Some r /\
             res = Some r /\ st' = st) \/
  (tmdb_cache st !! cache_key query year = None /\ truthy (api_key st) = false /\
   res = None /\ tmdb_cache st' = tmdb_cache st /\ provider st' = provider st /\
   log st' = log st ++ [EvErrorPrint query (str "API key not configured")]) \/
  (exists o p' evs,
     tmdb_cache st !! cache_key query year = None /\ truthy (api_key st) = true /\
     execute ask (api_key st) (language st) (provider st) (searches query year)
       = (o, p', evs) /\
     res = match o with Hit r => Some r | _ => None end /\
     tmdb_cache st' = match o with
                      | Hit r => <[cache_key query year := r]> (tmdb_cache st)
                      | _ => tmdb_cache st
                      end /\
     log st' = log st ++ evs ++ [closing_event query o]).
Proof.
  intros H.
  destruct (tmdb_cache st !! cache_key query year) as [r|] eqn:Hc.
  - left. rewrite (search_tmdb_cached _ _ _ _ Hc) in H. inversion H; subst. eauto.
  - right. destruct (truthy (api_key st)) eqn:Hk.
    + right.
      destruct (execute ask (api_key st) (language st) (provider st)
                  (searches query year)) as [[o p'] evs] eqn:Hex.
      rewrite (search_tmdb_ladder _ _ _ _ _ _ Hc Hk Hex) in H.
      inversion H; subst. exists o, p', evs. simpl. repeat split; reflexivity.
    + left. rewrite (search_tmdb_no_key _ _ _ Hc Hk) in H.
      inversion H; subst. simpl. repeat split; reflexivity.
Qed.

(** Entries of the cache are never replaced or removed. *)
Lemma search_tmdb_cache_mono st query year k r :
  tmdb_cache st !! k = Some r ->
  tmdb_cache (snd (search_tmdb ask st query year)) !! k = Some r.
Proof.
  intros Hk.
  destruct (search_tmdb ask st query year) as [res st'] eqn:H. simpl.
  destruct (search_tmdb_cases _ _ _ _ _ H)
    as [(r0 & _ & _ & ->)|[(_ & _ & _ & Hc & _)|(o & p' & evs & Hm & _ & _ & _ & Hc & _)]].
  - exact Hk.
  - rewrite Hc. exact Hk.
  - rewrite Hc. destruct o; try exact Hk.
    rewrite lookup_insert_ne; [exact Hk|]. intros <-. congruence.
Qed.

Lemma evolves_cache_mono st st' k r :
  evolves ask st st' -> tmdb_cache st !! k = Some r -> tmdb_cache st' !! k = Some r.
Proof.
  induction 1 as [st|st q y st' _ IH|st st' lang p _ IH]; intros Hk.
  - exact Hk.
  - apply search_tmdb_cache_mono, IH, Hk.
  - simpl. apply IH, Hk.
Qed.

(** A resolution that returns a record leaves it in the cache under the
    key of the query. *)
Lemma search_tmdb_some_cached st query year r st' :
  search_tmdb ask st query year = (Some r, st') ->
  tmdb_cache st' !! cache_key query year = Some r.
Proof.
  intros H.
  destruct (search_tmdb_cases _ _ _ _ _ H)
    as [(r0 & Hc & Hr & ->)|[(_ & _ & Hr & _)|(o & p' & evs & _ & _ & _ & Hr & Hc & _)]].
  - congruence.
  - discriminate.
  - rewrite Hc. destruct o; try discriminate. inversion Hr; subst.
    apply lookup_insert_eq.
Qed.


Lemma app_same_nil {A : Type} (l x : list A) : l = l ++ x -> x = [].
Proof.
  intros H. apply (app_inv_head l). rewrite app_nil_r. symmetry. exact H.
Qed.

(** The requests among the events a resolution adds are those of its
    ladder. *)
Lemma search_tmdb_requests st query year res st' evs :
  search_tmdb ask st query year = (res, st') ->
  log st' = log st ++ evs ->
  requests evs = [] \/
  exists o p' evs0,
    tmdb_cache st !! cache_key query year = None /\
    truthy (api_key st) = true /\
    execute ask (api_key st) (language st) (provider st) (searches query year)
      = (o, p', evs0) /\
    evs = evs0 ++ [closing_event query o] /\
    requests evs = requests evs0 /\
    res = match o with Hit r => Some r | _ => None end /\
    tmdb_cache st' = match o with
                     | Hit r => <[cache_key query year := r]> (tmdb_cache st)
                     | _ => tmdb_cache st
                     end.
Proof.
  intros H Hlog.
  destruct (search_tmdb_cases _ _ _ _ _ H)
    as [(r0 & _ & _ & ->)|[(_ & _ & _ & _ & _ & Hl)|(o & p' & evs0 & Hc & Hk & Hex & Hr & Hm & Hl)]].
  - left. rewrite (app_same_nil _ _ Hlog). reflexivity.
  - left. rewrite Hl in Hlog. apply app_inv_head in Hlog. subst evs. reflexivity.
  - right. rewrite Hl in Hlog. apply app_inv_head in Hlog. subst evs.
    exists o, p', evs0. repeat split; try assumption.
    rewrite requests_app, requests_closing, app_nil_r. reflexivity.
Qed.

Lemma lookup_before_last {A : Type} (Q : A -> Prop) (before : list A) (x y : A) i :
  Forall Q before -> ~ Q y -> (before ++ [x]) !! i = Some y ->
  S i = length (before ++ [x]) /\ x = y.
Proof.
  intros Hb Hy Hi. rewrite length_app. simpl.
  destruct (decide (i < length before)) as [Hlt|Hge].
  - rewrite lookup_app_l in Hi by exact Hlt.
    destruct Hy. eapply Forall_lookup_1; eassumption.
  - rewrite lookup_app_r in Hi by lia.
    destruct (i - length before) as [|n] eqn:Hd; simpl in Hi; [|discriminate].
    inversion Hi; subst. split; [lia | reflexivity].
Qed.

(** When the first search that is not skipped is answered with results,
    the resolution returns the top one. *)
Lemma execute_first_hit key lang ss : forall p prm more top rest p',
  attempted key lang ss = prm :: more ->
  ask p prm = (Results (top :: rest), p') ->
  fst (fst (execute ask key lang p ss)) = Hit (make_result top).
Proof.
  induction ss as [|[q y] ss IH]; intros p prm more top rest p' Ha Hask.
  - discriminate.
  - simpl. destruct (skipped q) eqn:Hs.
    + rewrite attempted_cons_skipped in Ha by exact Hs. eapply IH; eassumption.
    + rewrite attempted_cons_sent in Ha by exact Hs. inversion Ha; subst.
      rewrite Hask. reflexivity.
Qed.


(** C6 (resolver, short circuit). In any resolution, a request that is
    answered with a result list that is not empty is the last one sent:
    the requests are the first searches that are not skipped, up to this
    one, and no later one is attempted. The record made from the top
    result is returned, and the cache afterwards is the old one with this
    record under the key of the original title and year; no other key
    changes. *)
Theorem C6_hit_ends_ladder st query year res st' evs i prm top rest :
  search_tmdb ask st query year = (res, st') ->
  log st' = log st ++ evs ->
  requests evs !! i = Some (prm, Results (top :: rest)) ->
  S i = length (requests evs) /\
  map fst (requests evs)
    = take (S i) (attempted (api_key st) (language st) (searches query year)) /\
  res = Some (make_result top) /\
  tmdb_cache st' = <[cache_key query year := make_result top]> (tmdb_cache st) /\
  (forall k, k <> cache_key query year -> tmdb_cache st' !! k = tmdb_cache st !! k).
Proof.
  intros H Hlog Hi.
  destruct (search_tmdb_requests _ _ _ _ _ _ H Hlog)
    as [Hnil|(o & p' & evs0 & Hc & Hk & Hex & -> & Hreq & Hres & Hcache)].
  - rewrite Hnil in Hi. discriminate.
  - rewrite Hreq in *.
    destruct (execute_requests _ _ _ _ _ _ _ Hex) as (before & Hb & Ho & Hpre).
    assert (Hne : ~ empty_answer (prm, Results (top :: rest))) by (intros E; discriminate E).
    destruct o as [r| |e].
    + destruct Ho as (prm' & top' & rest' & Hr & ->). rewrite Hr in *.
      destruct (lookup_before_last _ _ _ _ _ Hb Hne Hi) as [Hlen Heq].
      inversion Heq; subst.
      assert (Hc' : tmdb_cache st' = <[cache_key query year := make_result top]> (tmdb_cache st))
        by exact Hcache.
      repeat split; try assumption.
      * rewrite Hlen. exact Hpre.
      * intros k Hk'. rewrite Hc'. apply lookup_insert_ne. congruence.
    + destruct Ho as [Hr _]. rewrite Hr in Hi.
      destruct Hne. eapply Forall_lookup_1; eassumption.
    + destruct Ho as (prm' & Hr). rewrite Hr in Hi.
      destruct (lookup_before_last _ _ _ _ _ Hb Hne Hi) as [_ Heq]. discriminate.
Qed.

(** C7 (resolver, no negative caching). A resolution that finds nothing
    cached and whose every request is answered with an empty result list
    returns [None] and leaves the cache as it was; so when the same title
    and year are resolved again and the provider now has a result for the
    first search, that result is returned. *)
Theorem C7_not_found_is_not_cached st query year res st' evs :
  tmdb_cache st !! cache_key query year = None ->
  search_tmdb ask st query year = (res, st') ->
  log st' = log st ++ evs ->
  Forall empty_answer (requests evs) ->
  res = None /\
  tmdb_cache st' = tmdb_cache st /\
  (forall lang p2 prm more top rest p3,
     truthy (api_key st) = true ->
     attempted (api_key st) lang (searches query year) = prm :: more ->
     ask p2 prm = (Results (top :: rest), p3) ->
     fst (search_tmdb ask (State (api_key st) lang (tmdb_cache st') p2 (log st'))
            query year) = Some (make_result top)).
Proof.
  intros Hc H Hlog Hall.
  assert (Hres : res = None /\ tmdb_cache st' = tmdb_cache st).
  { destruct (search_tmdb_cases _ _ _ _ _ H)
      as [(r0 & Hc0 & _)|[(_ & _ & Hr & Hm & _)|(o & p' & evs0 & _ & Hk & Hex & Hr & Hm & Hl)]].
    - congruence.
    - split; assumption.
    - rewrite Hl in Hlog. apply app_inv_head in Hlog. subst evs.
      rewrite requests_app, requests_closing, app_nil_r in Hall.
      destruct (execute_requests _ _ _ _ _ _ _ Hex) as (before & Hb & Ho & _).
      destruct o as [r| |e]; [|split; assumption|split; assumption].
      destruct Ho as (prm & top & rest & Hreq & _). rewrite Hreq in Hall.
      apply Forall_app in Hall as [_ Hlast]. inversion Hlast as [|? ? Hbad _]; subst.
      discriminate Hbad. }
  destruct Hres as [-> Hsame]. repeat split; [exact Hsame|].
  intros lang p2 prm more top rest p3 Hk Ha Hask.
  unfold search_tmdb. simpl. rewrite Hsame, Hc, Hk. simpl.
  pose proof (execute_first_hit _ _ _ _ _ _ _ _ _ Ha Hask) as Hhit.
  destruct (execute ask (api_key st) lang p2 (searches query year)) as [[o p'] evs1].
  simpl in Hhit. subst o. reflexivity.
Qed.

(** C2, as the code has it (resolver, failures). In any resolution, a
    request that raises is the last one sent: the rest of the ladder is
    abandoned and nothing is cached. The resolution then returns [None],
    the value it also returns when the ladder is exhausted; what tells the
    two apart is the last event only, which for a timeout or a connection
    failure is an error dialog. *)
Theorem C2_failure_aborts_and_returns_none st query year res st' evs i prm e :
  search_tmdb ask st query year = (res, st') ->
  log st' = log st ++ evs ->
  requests evs !! i = Some (prm, Raised e) ->
  S i = length (requests evs) /\
  res = None /\
  tmdb_cache st' = tmdb_cache st /\
  last evs = Some (closing_event query (Failed e)) /\
  (e = Timeout \/ e = ConnectionError ->
   is_show_error (closing_event query (Failed e)) = true).
Proof.
  intros H Hlog Hi.
  destruct (search_tmdb_requests _ _ _ _ _ _ H Hlog)
    as [Hnil|(o & p' & evs0 & Hc & Hk & Hex & -> & Hreq & Hres & Hcache)].
  - rewrite Hnil in Hi. discriminate.
  - rewrite Hreq in *.
    destruct (execute_requests _ _ _ _ _ _ _ Hex) as (before & Hb & Ho & Hpre).
    assert (Hne : ~ empty_answer (prm, Raised e)) by (intros E; discriminate E).
    destruct o as [r| |e'].
    + destruct Ho as (prm' & top' & rest' & Hr & ->). rewrite Hr in Hi.
      destruct (lookup_before_last _ _ _ _ _ Hb Hne Hi) as [_ Heq]. discriminate.
    + destruct Ho as [Hr _]. rewrite Hr in Hi.
      destruct Hne. eapply Forall_lookup_1; eassumption.
    + destruct Ho as (prm' & Hr). rewrite Hr in *.
      destruct (lookup_before_last _ _ _ _ _ Hb Hne Hi) as [Hlen Heq].
      inversion Heq; subst.
      repeat split; try assumption.
      * apply last_snoc.
      * intros [->| ->]; reflexivity.
Qed.





Lemma lower_chr_t a : lower_chr a = "t"%char -> a = "t"%char \/ a = "T"%char.
Proof.
  destruct a as [[] [] [] [] [] [] [] []]; vm_compute; intros H;
    first [discriminate H | left; reflexivity | right; reflexivity].
Qed.

Lemma lower_chr_h a : lower_chr a = "h"%char -> a = "h"%char \/ a = "H"%char.
Proof.
  destruct a as [[] [] [] [] [] [] [] []]; vm_compute; intros H;
    first [discriminate H | left; reflexivity | right; reflexivity].
Qed.

Lemma lower_chr_e a : lower_chr a = "e"%char -> a = "e"%char \/ a = "E"%char.
Proof.
  destruct a as [[] [] [] [] [] [] [] []]; vm_compute; intros H;
    first [discriminate H | left; reflexivity | right; reflexivity].
Qed.

Lemma the_unsearchable t : t = [] \/ lower t = str "the" -> unsearchable t.
Proof.
  intros [->|H]; [repeat split; vm_compute; (reflexivity || lia)|].
  destruct t as [|a [|b [|c [|d t]]]]; try discriminate H.
  inversion H as [[Ha Hb Hc]].
  destruct (lower_chr_t a Ha) as [->| ->], (lower_chr_h b Hb) as [->| ->],
    (lower_chr_e c Hc) as [->| ->];
    repeat split; vm_compute; (reflexivity || lia).
Qed.

Lemma searches_plain t y :
  query_no_roman t = t -> length (split t) <= 2 ->
  searches t y = (if truthy_opt y then [(t, y)] else []) ++ [(t, None)].
Proof.
  intros Hq Hw. unfold searches.
  rewrite bool_decide_eq_false_2 by (intros Hne; apply Hne, Hq).
  replace (2 <? length (split t)) with false
    by (symmetry; apply Nat.ltb_ge, Hw).
  reflexivity.
Qed.

Lemma execute_unsearchable t y key lang p :
  unsearchable t -> execute ask key lang p (searches t y) = (Exhausted, p, []).
Proof.
  intros (Hs & Hq & Hw). rewrite searches_plain by assumption.
  destruct (truthy_opt y); simpl; rewrite Hs; reflexivity.
Qed.


(** The resolution of a query that the ladder cannot vary. *)
Lemma search_tmdb_unsearchable st t year res st' :
  unsearchable t ->
  search_tmdb ask st t year = (res, st') ->
  provider st' = provider st /\
  requests (log st') = requests (log st) /\
  (tmdb_cache st !! cache_key t year = None ->
   res = None /\ tmdb_cache st' = tmdb_cache st).
Proof.
  intros Ht H.
  destruct (tmdb_cache st !! cache_key t year) as [r|] eqn:Hc.
  - rewrite (search_tmdb_cached _ _ _ _ Hc) in H. inversion H; subst.
    repeat split; discriminate.
  - destruct (truthy (api_key st)) eqn:Hk.
    + rewrite (search_tmdb_ladder _ _ _ Exhausted (provider st) [] Hc Hk) in H
        by (apply execute_unsearchable, Ht).
      inversion H; subst. simpl. rewrite requests_app, app_nil_r.
      repeat split; reflexivity.
    + rewrite (search_tmdb_no_key _ _ _ Hc Hk) in H. inversion H; subst. simpl.
      rewrite requests_app, app_nil_r. repeat split; reflexivity.
Qed.

(** C8 (resolver, unsearchable titles). When the cleaned title of a file
    is empty or is [the] in any mix of cases, trimmed or not, its
    resolution sends no request and does not consult the provider,
    whatever the year; unless the cache has an entry for it, it returns
    [None] and leaves the cache as it is, and the batch loop records the
    file as not found. *)
Theorem C8_unsearchable_title_skipped st name year res st' :
  strip (clean_name name) = [] \/ lower (strip (clean_name name)) = str "the" ->
  search_tmdb ask st (clean_name name) year = (res, st') ->
  provider st' = provider st /\
  requests (log st') = requests (log st) /\
  (tmdb_cache st !! cache_key (clean_name name) year = None ->
   res = None /\ tmdb_cache st' = tmdb_cache st) /\
  (tmdb_cache st !! cache_key (clean_name name) (extract_year name) = None ->
   fst (process_file ask st name) = (name, not_found_dict, not_found) /\
   requests (log (snd (process_file ask st name))) = requests (log st)).
Proof.
  unfold clean_name. rewrite clean_with_stripped. intros Ht H.
  apply the_unsearchable in Ht.
  destruct (search_tmdb_unsearchable _ _ _ _ _ Ht H) as (Hp & Hr & Hn).
  repeat split; try assumption; try (apply Hn; assumption).
  - unfold process_file, normalize, clean_name.
    destruct (search_tmdb ask st (clean_with batch_markers name) (extract_year name))
      as [res1 st1] eqn:H1.
    destruct (search_tmdb_unsearchable _ _ _ _ _ Ht H1) as (_ & _ & Hn1).
    destruct (Hn1 H0) as [-> _]. reflexivity.
  - unfold process_file, normalize, clean_name.
    destruct (search_tmdb ask st (clean_with batch_markers name) (extract_year name))
      as [res1 st1] eqn:H1.
    destruct (search_tmdb_unsearchable _ _ _ _ _ Ht H1) as (_ & Hr1 & Hn1).
    destruct (Hn1 H0) as [-> _]. exact Hr1.
Qed.

(** A batch of files is a way for the session to evolve. *)
Lemma evolves_trans st1 st2 st3 :
  evolves ask st1 st2 -> evolves ask st2 st3 -> evolves ask st1 st3.
Proof.
  intros H12 H23. induction H23 as [st|st q y st' _ IH|st st' lang p _ IH].
  - exact H12.
  - apply evolves_search, IH, H12.
  - apply evolves_world, IH, H12.
Qed.

Lemma process_file_evolves st name : evolves ask st (snd (process_file ask st name)).
Proof.
  unfold process_file, normalize.
  pose proof (evolves_search ask st (clean_name name) (extract_year name) st
                (evolves_refl ask st)) as H.
  destruct (search_tmdb ask st (clean_name name) (extract_year name)) as [[r|] st'];
    exact H.
Qed.

Lemma process_files_evolves names : forall st,
  evolves ask st (snd (process_files ask st names)).
Proof.
  induction names as [|name rest IH]; intros st; [apply evolves_refl|].
  cbn [process_files].
  pose proof (process_file_evolves st name) as H1.
  destruct (process_file ask st name) as [item st1].
  pose proof (IH st1) as H2.
  destruct (process_files ask st1 rest) as [items st2].
  simpl in *. eapply evolves_trans; eassumption.
Qed.

End ResolverFacts.

(** ** The resolver on the instances *)


Lemma C6_hit_ends_ladder_witness :
  queries_sent yearless_run = [str "Rocky II"; str "Rocky II"] /\
  requests (log (snd yearless_run)) !! 1
    = Some (make_params (str "0123456789abcdef") (str "en") rocky_title None,
            Results [rocky_ii]) /\
  2 = length (requests (log (snd yearless_run))) /\
  fst yearless_run = Some (make_result rocky_ii) /\
  tmdb_cache (snd yearless_run)
    = <[cache_key rocky_title rocky_year := make_result rocky_ii]> ∅.
Proof.
  assert (H1 : search_tmdb yearless_catalog session0 rocky_title rocky_year
               = (fst yearless_run, snd yearless_run))
    by (vm_compute; reflexivity).
  assert (H2 : log (snd yearless_run) = log session0 ++ log (snd yearless_run))
    by reflexivity.
  assert (H3 : requests (log (snd yearless_run)) !! 1
               = Some (make_params (str "0123456789abcdef") (str "en") rocky_title None,
                       Results [rocky_ii]))
    by (vm_compute; reflexivity).
  destruct (C6_hit_ends_ladder yearless_catalog session0 rocky_title rocky_year
              (fst yearless_run) (snd yearless_run) (log (snd yearless_run)) 1
              _ rocky_ii [] H1 H2 H3) as (Hlen & _ & Hres & Hcache & _).
  split; [vm_compute; reflexivity|].
  split; [exact H3|]. split; [exact Hlen|]. split; [exact Hres | exact Hcache].
Defined.

Lemma C7_not_found_is_not_cached_witness :
  tmdb_cache session0 !! cache_key rocky_title rocky_year = None /\
  Forall empty_answer (requests (log (snd empty_run))) /\
  fst empty_run = None /\
  tmdb_cache (snd empty_run) = tmdb_cache session0 /\
  fst (search_tmdb rocky_catalog (snd empty_run) rocky_title rocky_year)
    = Some (make_result rocky_ii).
Proof.
  assert (H0 : tmdb_cache session0 !! cache_key rocky_title rocky_year = None)
    by (vm_compute; reflexivity).
  assert (H1 : search_tmdb empty_catalog session0 rocky_title rocky_year
               = (fst empty_run, snd empty_run))
    by (vm_compute; reflexivity).
  assert (H2 : log (snd empty_run) = log session0 ++ log (snd empty_run))
    by reflexivity.
  assert (H3 : Forall empty_answer (requests (log (snd empty_run))))
    by (vm_compute; repeat constructor).
  destruct (C7_not_found_is_not_cached empty_catalog session0 rocky_title rocky_year
              (fst empty_run) (snd empty_run) (log (snd empty_run)) H0 H1 H2 H3)
    as (Hres & Hcache & _).
  split; [exact H0|]. split; [exact H3|]. split; [exact Hres|].
  split; [exact Hcache | vm_compute; reflexivity].
Defined.

(** C2, refuted as stated: a resolution during which the provider times
    out and one against a catalog without the movie give the caller the
    same value, and the batch loop records the same entry for both. *)
Lemma C2_timeout_returned_as_not_found :
  queries_sent timeout_run = [str "Rocky II"] /\
  fst timeout_run = None /\
  fst empty_run = None /\
  fst timeout_run = fst empty_run /\
  fst (process_file timing_out session0 (str "Rocky.II.1979.DVDRip"))
    = fst (process_file empty_catalog session0 (str "Rocky.II.1979.DVDRip")).
Proof. repeat split; vm_compute; reflexivity. Qed.

Lemma C2_failure_aborts_and_returns_none_witness :
  queries_sent flaky_run = [str "Rocky 2"; str "Rocky 2"] /\
  requests (log (snd flaky_run)) !! 1
    = Some (make_params (str "0123456789abcdef") (str "en") (str "Rocky 2") None,
            Raised Timeout) /\
  2 = length (requests (log (snd flaky_run))) /\
  fst flaky_run = None /\
  tmdb_cache (snd flaky_run) = ∅ /\
  is_show_error (closing_event (str "Rocky 2") (Failed Timeout)) = true.
Proof.
  assert (H1 : search_tmdb flaky (init (str "0123456789abcdef") (str "en") 0)
                 (str "Rocky 2") rocky_year = (fst flaky_run, snd flaky_run))
    by (vm_compute; reflexivity).
  assert (H2 : log (snd flaky_run)
               = log (init (str "0123456789abcdef") (str "en") 0) ++ log (snd flaky_run))
    by reflexivity.
  assert (H3 : requests (log (snd flaky_run)) !! 1
               = Some (make_params (str "0123456789abcdef") (str "en") (str "Rocky 2") None,
                       Raised Timeout))
    by (vm_compute; reflexivity).
  destruct (C2_failure_aborts_and_returns_none flaky _ (str "Rocky 2") rocky_year
              (fst flaky_run) (snd flaky_run) (log (snd flaky_run)) 1 _ Timeout
              H1 H2 H3) as (Hlen & Hres & Hcache & _ & Hshow).
  split; [vm_compute; reflexivity|].
  split; [exact H3|]. split; [exact Hlen|]. split; [exact Hres|].
  split; [exact Hcache | exact (Hshow (or_introl eq_refl))].
Defined.



Lemma C8_unsearchable_title_skipped_witness :
  clean_name (str "The.1999.1080p") = str "The" /\
  lower (strip (clean_name (str "The.1999.1080p"))) = str "the" /\
  requests (log (snd (search_tmdb rocky_catalog session0
                        (clean_name (str "The.1999.1080p")) rocky_year))) = [] /\
  fst (search_tmdb rocky_catalog session0
         (clean_name (str "The.1999.1080p")) rocky_year) = None /\
  fst (process_file rocky_catalog session0 (str "The.1999.1080p"))
    = (str "The.1999.1080p", not_found_dict, not_found).
Proof.
  assert (H0 : lower (strip (clean_name (str "The.1999.1080p"))) = str "the")
    by (vm_compute; reflexivity).
  destruct (C8_unsearchable_title_skipped rocky_catalog session0
              (str "The.1999.1080p") rocky_year _ _ (or_intror H0)
              (surjective_pairing _)) as (_ & Hreq & Hres & Hfile).
  split; [vm_compute; reflexivity|]. split; [exact H0|].
  split; [exact Hreq|].
  split; [apply Hres; vm_compute; reflexivity|].
  apply Hfile. vm_compute. reflexivity.
Defined.




(** ** The normalizer on file names *)

Example normalize_rocky :
  normalize (str "Rocky.II.1979.DVDRip") = (str "Rocky II", Some (str "1979")).
Proof. vm_compute. reflexivity. Qed.

Example normalize_parenthesized_year :
  normalize (str "Heat (1995) 1080p BluRay") = (str "Heat", Some (str "1995")).
Proof. vm_compute. reflexivity. Qed.

Example normalize_release_group :
  normalize (str "The.Matrix.1999.1080p.BluRay.x264-GROUP")
    = (str "The Matrix GROUP", Some (str "1999")).
Proof. vm_compute. reflexivity. Qed.

Example number_to_roman_1979 : _number_to_roman 1979 = str "MCMLXXIX".
Proof. vm_compute. reflexivity. Qed.

Example convert_roman_numerals_iv :
  convert_roman_numerals (str "Rocky IV and i x") = str "Rocky 4 and 1 10".
Proof. vm_compute. reflexivity. Qed.

(** C3, on the code. The stem [Se7en [1995] {cd1}] has no year in
    parentheses and the token [1995] between two characters that are not
    digits; the batch path extracts no year from it, while the override
    dialog extracts [1995]. The same happens to a year at the end of the
    stem, as in [The.Matrix.1999.mkv]. A year between underscores is
    extracted and stays in the cleaned title. *)
Theorem C3_standalone_year_missed :
  search paren_year_re (str "Se7en [1995] {cd1}") = None /\
  normalize (fst (splitext (str "Se7en [1995] {cd1}.avi"))) = (str "Se7en", None) /\
  override_year (fst (splitext (str "Se7en [1995] {cd1}.avi"))) = Some (str "1995") /\
  normalize (fst (splitext (str "The.Matrix.1999.mkv"))) = (str "The Matrix", None) /\
  override_year (fst (splitext (str "The.Matrix.1999.mkv"))) = Some (str "1999") /\
  normalize (str "Movie_1999_x") = (str "Movie 1999 x", Some (str "1999")).
Proof. repeat split; vm_compute; reflexivity. Qed.


(** * Names, the preview list and the renaming *)

(** ** Trimming *)

Section StripFacts.

Lemma lstrip_idem s : lstrip (lstrip s) = lstrip s.
Proof.
  induction s as [|c t IH]; [reflexivity|].
  simpl. destruct (is_space c) eqn:Hc; [exact IH|]. simpl. rewrite Hc. reflexivity.
Qed.

Lemma lstrip_head s c t : lstrip s = c :: t -> is_space c = false.
Proof.
  induction s as [|a s IH]; [discriminate|].
  simpl. destruct (is_space a) eqn:Ha; [exact IH|].
  intros H. inversion H; subst. exact Ha.
Qed.

Lemma lstrip_snoc u c : is_space c = false -> lstrip (u ++ [c]) = lstrip u ++ [c].
Proof.
  intros Hc. induction u as [|a u IH]; simpl.
  - rewrite Hc. reflexivity.
  - destruct (is_space a); [exact IH | reflexivity].
Qed.

Lemma rstrip_cons c t : is_space c = false -> rstrip (c :: t) = c :: rstrip t.
Proof.
  intros Hc. unfold rstrip. simpl. rewrite lstrip_snoc by exact Hc.
  rewrite rev_unit. reflexivity.
Qed.

Lemma rstrip_idem s : rstrip (rstrip s) = rstrip s.
Proof. unfold rstrip. rewrite rev_involutive, lstrip_idem. reflexivity. Qed.

(** Trimming a trimmed string changes nothing. *)
Lemma strip_idem s : strip (strip s) = strip s.
Proof.
  unfold strip. destruct (lstrip s) as [|c t] eqn:Hl; [reflexivity|].
  pose proof (lstrip_head _ _ _ Hl) as Hc.
  rewrite rstrip_cons by exact Hc. rewrite lstrip_word_first by exact Hc.
  rewrite <- rstrip_cons by exact Hc. apply rstrip_idem.
Qed.

Lemma lstrip_sublist s : lstrip s `sublist_of` s.
Proof.
  induction s as [|c t IH]; [constructor|].
  simpl. destruct (is_space c); [apply sublist_cons, IH | reflexivity].
Qed.

Lemma sublist_rev_1 {A : Type} (l k : list A) :
  l `sublist_of` k -> rev l `sublist_of` rev k.
Proof.
  induction 1 as [|x l k _ IH|x l k _ IH]; simpl.
  - constructor.
  - apply sublist_app; [exact IH | reflexivity].
  - etransitivity; [exact IH | apply sublist_inserts_r; reflexivity].
Qed.

Lemma strip_sublist s : strip s `sublist_of` s.
Proof.
  unfold strip, rstrip. etransitivity; [|apply lstrip_sublist].
  rewrite <- (rev_involutive (lstrip s)) at 2.
  apply sublist_rev_1, lstrip_sublist.
Qed.

End StripFacts.

(** ** File and folder names *)

Section NamingFacts.

(** Substituting the empty string for a class deletes its characters. *)
Lemma cls_sub_filter (p : ascii -> bool) repl s : forall prev pos,
  (forall t, repl t = []) ->
  sub_from (Cls p) repl prev pos 0 s = filter (fun c => p c = false) s.
Proof.
  induction s as [|a t IH]; intros prev pos Hr; [reflexivity|].
  cbn [sub_from]. unfold match_at. cbn [rmatch c_rest].
  rewrite filter_cons. destruct (p a) eqn:Ha.
  - simpl c_pos. replace (S pos - pos) with 1 by lia. rewrite Hr. simpl.
    rewrite IH by exact Hr.
    destruct (decide (true = false)) as [E|_]; [discriminate E | reflexivity].
  - rewrite IH by exact Hr.
    destruct (decide (false = false)) as [_|E]; [reflexivity | destruct E; reflexivity].
Qed.

Lemma sanitize_filename_filter s :
  sanitize_filename s = strip (filter (fun c => illegal_chr c = false) s).
Proof.
  unfold sanitize_filename, sub, sub_fn. rewrite cls_sub_filter by reflexivity.
  reflexivity.
Qed.

Lemma filter_legal_id s :
  Forall (fun c => illegal_chr c = false) s ->
  filter (fun c => illegal_chr c = false) s = s.
Proof.
  induction 1 as [|c t Hc _ IH]; [reflexivity|].
  rewrite filter_cons, IH.
  destruct (decide (illegal_chr c = false)); [reflexivity | contradiction].
Qed.

Lemma sanitize_legal s : Forall (fun c => illegal_chr c = false) (sanitize_filename s).
Proof.
  rewrite sanitize_filename_filter. apply Forall_strip.
  apply Forall_forall. intros c Hc.
  apply list_elem_of_filter in Hc. apply Hc.
Qed.

Lemma sanitize_fixed s :
  Forall (fun c => illegal_chr c = false) s -> strip s = s -> sanitize_filename s = s.
Proof.
  intros Hs Ht. rewrite sanitize_filename_filter, filter_legal_id by exact Hs.
  exact Ht.
Qed.

Lemma sanitize_stripped s : strip (sanitize_filename s) = sanitize_filename s.
Proof. unfold sanitize_filename. apply strip_idem. Qed.

Lemma sanitize_idem s : sanitize_filename (sanitize_filename s) = sanitize_filename s.
Proof. apply sanitize_fixed; [apply sanitize_legal | apply sanitize_stripped]. Qed.

Lemma sanitize_sublist s : sanitize_filename s `sublist_of` s.
Proof.
  rewrite sanitize_filename_filter. etransitivity; [apply strip_sublist|].
  apply sublist_filter.
Qed.

End NamingFacts.

Section FolderFacts.

Lemma filter_app_legal (a b : list ascii) :
  filter (fun c => illegal_chr c = false) (a ++ b)
  = filter (fun c => illegal_chr c = false) a ++ filter (fun c => illegal_chr c = false) b.
Proof. apply filter_app. Qed.

Lemma movie_folder_name_closing r :
  exists body, movie_folder_name r = body ++ str ")".
Proof.
  unfold movie_folder_name. rewrite sanitize_filename_filter.
  rewrite !app_assoc, filter_app_legal.
  set (x := filter _ ((res_title r ++ str " (") ++ res_year r)).
  change (filter (fun c => illegal_chr c = false) (str ")")) with [")"%char].
  unfold strip. rewrite lstrip_snoc by reflexivity.
  rewrite rstrip_word_last by reflexivity. eauto.
Qed.

End FolderFacts.

(** X1 ([sanitize_filename]). A sanitized name has none of the characters
    of the class (the double quote, [<], [>], [:], [/], the backslash, [|],
    [?] and the star) and no white space at its ends, and it is what is
    left of the name after characters were deleted: nothing is added,
    replaced or moved. *)
Theorem X1_sanitize_filename_clean (filename : list ascii) :
  Forall (fun c => illegal_chr c = false) (sanitize_filename filename) /\
  strip (sanitize_filename filename) = sanitize_filename filename /\
  sanitize_filename filename `sublist_of` filename.
Proof.
  split; [apply sanitize_legal|]. split; [apply sanitize_stripped | apply sanitize_sublist].
Qed.

(** X2 ([sanitize_filename]). Sanitizing a sanitized name changes nothing,
    and the names that sanitizing leaves as they are are exactly those
    without a character of the class and without white space at their
    ends. *)
Theorem X2_sanitize_filename_fixed_points (filename : list ascii) :
  sanitize_filename (sanitize_filename filename) = sanitize_filename filename /\
  (sanitize_filename filename = filename <->
   Forall (fun c => illegal_chr c = false) filename /\ strip filename = filename).
Proof.
  split; [apply sanitize_idem|]. split.
  - intros H. split; rewrite <- H; [apply sanitize_legal | apply sanitize_stripped].
  - intros [Hl Hs]. apply sanitize_fixed; assumption.
Qed.

(** X3 (the folder name of [_process_movies] and [display_preview_item]).
    Whatever the title and the year of the record, the folder name ends
    with the closing parenthesis, so it is never empty, and it has no
    character of the class of [sanitize_filename]. *)
Theorem X3_movie_folder_name_closes (tmdb_data : tmdb_result) :
  (exists body, movie_folder_name tmdb_data = body ++ str ")") /\
  movie_folder_name tmdb_data <> [] /\
  Forall (fun c => illegal_chr c = false) (movie_folder_name tmdb_data).
Proof.
  destruct (movie_folder_name_closing tmdb_data) as [body Hb].
  split; [exists body; exact Hb|]. split.
  - rewrite Hb. intros H. destruct body; discriminate H.
  - apply sanitize_legal.
Qed.

(** ** Roman numerals *)

Section RomanFacts.

Lemma roman_loop_zero table : roman_loop table 0 = [].
Proof. destruct table as [|[v sym] t]; reflexivity. Qed.

Lemma roman_loop_checked_zero table : roman_loop_checked table 0 = Some [].
Proof. destruct table as [|[v sym] t]; reflexivity. Qed.

Lemma roman_loop_checked_some table : forall num,
  Exists (fun e => fst e = 1%N) table ->
  roman_loop_checked table num = Some (roman_loop table num).
Proof.
  induction table as [|[v sym] t IH]; intros num Hex; [inversion Hex|].
  cbn [roman_loop_checked roman_loop]. destruct (num =? 0)%N; [reflexivity|].
  destruct (decide (v = 1%N)) as [->|Hv].
  - rewrite N.mod_1_r, roman_loop_checked_zero, roman_loop_zero. reflexivity.
  - rewrite IH; [reflexivity|]. inversion Hex as [? ? H1|]; subst; [|assumption].
    simpl in H1. contradiction.
Qed.

Lemma roman_loop_cons v sym t num :
  roman_loop ((v, sym) :: t) num =
    if (num =? 0)%N then []
    else concat (repeat sym (N.to_nat (num / v))) ++ roman_loop t (num mod v)%N.
Proof. reflexivity. Qed.

Lemma number_to_roman_split num :
  _number_to_roman num
  = thousands (N.to_nat (num / 1000)) ++ _number_to_roman (num mod 1000).
Proof.
  unfold _number_to_roman.
  change val_syms with ((1000%N, str "M") :: tail val_syms).
  rewrite !roman_loop_cons. fold (thousands (N.to_nat (num / 1000))).
  destruct (num =? 0)%N eqn:E0.
  - apply N.eqb_eq in E0. subst. reflexivity.
  - f_equal.
    destruct (num mod 1000 =? 0)%N eqn:E1.
    + apply N.eqb_eq in E1. rewrite E1. apply roman_loop_zero.
    + assert (Hlt : (num mod 1000 < 1000)%N) by (apply N.mod_lt; discriminate).
      rewrite (N.div_small _ _ Hlt), (N.mod_small _ _ Hlt). reflexivity.
Qed.

Lemma letter_value_le c : (letter_value c <= 1000)%Z.
Proof.
  unfold letter_value.
  repeat match goal with |- context [if ?b then _ else _] => destruct b end; lia.
Qed.

Lemma roman_value_thousands q s :
  roman_value (thousands q ++ s) = (1000 * Z.of_nat q + roman_value s)%Z.
Proof.
  induction q as [|q IH]; [simpl; lia|].
  change (thousands (S q) ++ s) with ("M"%char :: (thousands q ++ s)).
  cbn [roman_value]. change (letter_value "M") with 1000%Z.
  destruct (thousands q ++ s) as [|c' t] eqn:E.
  - simpl in IH. lia.
  - pose proof (letter_value_le c') as Hle.
    destruct (1000 <? letter_value c')%Z eqn:Hlt; [apply Z.ltb_lt in Hlt; lia | lia].
Qed.

Lemma units_complete r : (r < 1000)%N -> In r units.
Proof.
  intros H. unfold units. apply in_map_iff. exists (N.to_nat r).
  split; [apply N2Nat.id | apply in_seq; lia].
Qed.

Lemma units_read_back :
  forallb (fun r => (roman_value (_number_to_roman r) =? Z.of_N r)%Z
                    && forallb roman_letter (_number_to_roman r)) units = true.
Proof. vm_compute. reflexivity. Qed.

Lemma small_read_back r :
  (r < 1000)%N ->
  roman_value (_number_to_roman r) = Z.of_N r /\
  Forall (fun c => roman_letter c = true) (_number_to_roman r).
Proof.
  intros H. pose proof units_read_back as Hall.
  rewrite forallb_forall in Hall. specialize (Hall r (units_complete r H)).
  apply andb_true_iff in Hall as [Hv Hl]. split; [apply Z.eqb_eq, Hv|].
  apply Forall_forall. intros c Hc. rewrite forallb_forall in Hl.
  apply Hl. apply list_elem_of_In. exact Hc.
Qed.

Lemma thousands_letters q : Forall (fun c => roman_letter c = true) (thousands q).
Proof. induction q; [constructor | constructor; [reflexivity | assumption]]. Qed.

Lemma number_to_roman_reads_back num : roman_value (_number_to_roman num) = Z.of_N num.
Proof.
  rewrite number_to_roman_split, roman_value_thousands.
  assert (Hlt : (num mod 1000 < 1000)%N) by (apply N.mod_lt; discriminate).
  rewrite (proj1 (small_read_back _ Hlt)).
  rewrite N_nat_Z. rewrite (N.div_mod num 1000) at 3 by discriminate. lia.
Qed.

End RomanFacts.

(** X4 ([_number_to_roman]). The index into the tables of values and
    symbols never runs past their last entry: for every number the loop
    ends within the table, with the numeral that is returned. *)
Theorem X4_number_to_roman_within_table (num : N) :
  roman_loop_checked val_syms num = Some (_number_to_roman num).
Proof.
  apply roman_loop_checked_some. unfold val_syms.
  repeat (first [apply Exists_cons_hd; reflexivity | apply Exists_cons_tl]).
Qed.

(** X5 ([_number_to_roman]). The numeral of a number reads back as that
    number, it is made of the seven Roman letters, and it is empty for
    zero only. *)
Theorem X5_number_to_roman_reads_back (num : N) :
  roman_value (_number_to_roman num) = Z.of_N num /\
  Forall (fun c => roman_letter c = true) (_number_to_roman num) /\
  (_number_to_roman num = [] <-> num = 0%N).
Proof.
  split; [apply number_to_roman_reads_back|]. split.
  - rewrite number_to_roman_split. apply Forall_app. split.
    + apply thousands_letters.
    + apply small_read_back. apply N.mod_lt. discriminate.
  - split.
    + intros H. pose proof (number_to_roman_reads_back num) as Hv.
      rewrite H in Hv. cbn [roman_value] in Hv. lia.
    + intros ->. reflexivity.
Qed.

(** ** Sessions *)

Section SessionFacts.
Context {P : Type} (ask : P -> params -> response * P).

Lemma new_events_app (st st' : @state P) evs :
  log st' = log st ++ evs -> new_events st st' = evs.
Proof. intros H. unfold new_events. rewrite H. apply drop_app_length. Qed.

(** The log only grows. *)
Lemma search_tmdb_log st query year :
  exists evs, log (snd (search_tmdb ask st query year)) = log st ++ evs.
Proof.
  destruct (search_tmdb ask st query year) as [res st'] eqn:H. simpl.
  destruct (search_tmdb_cases ask _ _ _ _ _ H)
    as [(r0 & _ & _ & ->)|[(_ & _ & _ & _ & _ & Hl)|(o & p' & evs0 & _ & _ & _ & _ & _ & Hl)]].
  - exists []. rewrite app_nil_r. reflexivity.
  - eauto.
  - eauto.
Qed.

Lemma search_tmdb_new_events st query year :
  log (snd (search_tmdb ask st query year))
  = log st ++ new_events st (snd (search_tmdb ask st query year)).
Proof.
  destruct (search_tmdb_log st query year) as (evs & H).
  rewrite (new_events_app _ _ _ H). exact H.
Qed.

Lemma searches_length query year : length (searches query year) <= 6.
Proof.
  unfold searches. rewrite !length_app.
  destruct (truthy_opt year), (bool_decide _), (2 <? _); simpl; lia.
Qed.

Lemma attempted_length key lang ss : length (attempted key lang ss) <= length ss.
Proof. unfold attempted. rewrite length_map. apply length_filter. Qed.

Lemma attempted_In key lang ss prm :
  In prm (attempted key lang ss) ->
  exists q y, In (q, y) ss /\ skipped q = false /\ prm = make_params key lang q y.
Proof.
  unfold attempted. intros H. apply in_map_iff in H as ([q y] & <- & Hin).
  apply list_elem_of_In, list_elem_of_filter in Hin as [Hs Hin].
  exists q, y. simpl in *. repeat split.
  - apply list_elem_of_In. exact Hin.
  - destruct (skipped q); [destruct Hs | reflexivity].
Qed.

(** The requests of a resolution are among the searches that are not
    skipped, and not more than those. *)
Lemma resolution_requests st query year :
  let evs := new_events st (snd (search_tmdb ask st query year)) in
  length (requests evs) <= length (searches query year) /\
  forall prm resp, In (prm, resp) (requests evs) ->
    In prm (attempted (api_key st) (language st) (searches query year)).
Proof.
  intros evs.
  destruct (search_tmdb ask st query year) as [res st'] eqn:H.
  pose proof (search_tmdb_new_events st query year) as Hlog. rewrite H in Hlog.
  simpl in Hlog. subst evs. simpl.
  destruct (search_tmdb_requests ask _ _ _ _ _ _ H Hlog)
    as [Hnil|(o & p' & evs0 & _ & _ & Hex & _ & Hreq & _)].
  - rewrite Hnil. split; [simpl; lia | intros ? ? []].
  - rewrite Hreq.
    destruct (execute_requests ask _ _ _ _ _ _ _ Hex) as (_ & _ & _ & Hpre).
    assert (Hlen : length (requests evs0)
                   <= length (attempted (api_key st) (language st) (searches query year))).
    { apply (f_equal length) in Hpre. rewrite length_map, length_take in Hpre. lia. }
    split.
    + etransitivity; [exact Hlen | apply attempted_length].
    + intros prm resp Hin.
      assert (Hp : In prm (map fst (requests evs0)))
        by (apply in_map_iff; exists (prm, resp); split; [reflexivity | exact Hin]).
      rewrite Hpre in Hp. apply list_elem_of_In in Hp.
      apply list_elem_of_In. eapply subseteq_take. exact Hp.
Qed.

Lemma searches_In query year q y :
  In (q, y) (searches query year) ->
  In q (ladder_queries query) /\ (y = None \/ y = year).
Proof.
  unfold searches, ladder_queries. rewrite !in_app_iff.
  destruct (truthy_opt year) eqn:Hy, (bool_decide _), (2 <? _); simpl;
    intuition (try match goal with H : (_, _) = (_, _) |- _ => inversion H; subst end;
               auto).
Qed.

Lemma new_events_trans (st1 st2 st3 : @state P) evs1 evs2 :
  log st2 = log st1 ++ evs1 -> log st3 = log st2 ++ evs2 ->
  new_events st1 st3 = new_events st1 st2 ++ new_events st2 st3.
Proof.
  intros H1 H2. rewrite (new_events_app _ _ _ H1), (new_events_app _ _ _ H2).
  apply new_events_app. rewrite H2, H1, app_assoc. reflexivity.
Qed.

Lemma process_file_state st name :
  snd (process_file ask st name)
  = snd (search_tmdb ask st (clean_name name) (extract_year name)).
Proof.
  unfold process_file, normalize.
  destruct (search_tmdb ask st (clean_name name) (extract_year name)) as [[r|] st'];
    reflexivity.
Qed.

Lemma process_files_log names : forall st,
  exists evs, log (snd (process_files ask st names)) = log st ++ evs.
Proof.
  induction names as [|name rest IH]; intros st.
  - exists []. simpl. rewrite app_nil_r. reflexivity.
  - cbn [process_files].
    pose proof (process_file_state st name) as Hs.
    destruct (process_file ask st name) as [item st1]. simpl in Hs.
    destruct (IH st1) as (evs2 & H2).
    destruct (process_files ask st1 rest) as [items st2]. simpl in *.
    destruct (search_tmdb_log st (clean_name name) (extract_year name)) as (evs1 & H1).
    rewrite <- Hs in H1. exists (evs1 ++ evs2). rewrite H2, H1, app_assoc. reflexivity.
Qed.

Lemma process_files_requests names : forall st,
  length (requests (new_events st (snd (process_files ask st names))))
  <= 6 * length names.
Proof.
  induction names as [|name rest IH]; intros st.
  - simpl. unfold new_events. rewrite drop_all. simpl. lia.
  - cbn [process_files].
    pose proof (process_file_state st name) as Hs.
    destruct (process_file ask st name) as [item st1]. simpl in Hs.
    pose proof (IH st1) as H2.
    destruct (process_files_log rest st1) as (evs2 & Hl2).
    destruct (process_files ask st1 rest) as [items st2]. simpl in *.
    destruct (search_tmdb_log st (clean_name name) (extract_year name)) as (evs1 & Hl1).
    pose proof (proj1 (resolution_requests st (clean_name name) (extract_year name))) as H1.
    pose proof (searches_length (clean_name name) (extract_year name)) as H6.
    rewrite <- Hs in Hl1, H1.
    rewrite (new_events_trans _ _ _ _ _ Hl1 Hl2), requests_app, length_app. lia.
Qed.

(** What a resolution leaves in the cache. *)
Lemma search_tmdb_cache st query year :
  let run := search_tmdb ask st query year in
  tmdb_cache (snd run) !! cache_key query year = fst run /\
  (forall k, k <> cache_key query year ->
     tmdb_cache (snd run) !! k = tmdb_cache st !! k) /\
  (forall r, tmdb_cache st !! cache_key query year = Some r -> snd run = st) /\
  api_key (snd run) = api_key st /\ language (snd run) = language st.
Proof.
  intros run. subst run.
  destruct (tmdb_cache st !! cache_key query year) as [r|] eqn:Hc.
  - rewrite (search_tmdb_cached ask _ _ _ _ Hc). simpl.
    repeat split; auto.
  - destruct (truthy (api_key st)) eqn:Hk.
    + destruct (execute ask (api_key st) (language st) (provider st)
                  (searches query year)) as [[o p'] evs] eqn:Hex.
      rewrite (search_tmdb_ladder ask _ _ _ _ _ _ Hc Hk Hex). simpl.
      destruct o as [r| |e]; simpl; repeat split; try discriminate; auto.
      * apply lookup_insert_eq.
      * intros k Hk'. apply lookup_insert_ne. congruence.
    + rewrite (search_tmdb_no_key ask _ _ _ Hc Hk). simpl.
      repeat split; try discriminate; auto.
Qed.

Lemma search_tmdb_made st query year :
  cache_made st -> cache_made (snd (search_tmdb ask st query year)).
Proof.
  intros Hm.
  destruct (search_tmdb ask st query year) as [res st'] eqn:H. simpl.
  destruct (search_tmdb_cases ask _ _ _ _ _ H)
    as [(r0 & _ & _ & ->)|[(_ & _ & _ & Hc & _)|(o & p' & evs & _ & _ & Hex & _ & Hc & _)]].
  - exact Hm.
  - intros k r. rewrite Hc. apply Hm.
  - intros k r. rewrite Hc. destruct o as [r0| |e]; try apply Hm.
    destruct (execute_requests ask _ _ _ _ _ _ _ Hex)
      as (_ & _ & (prm & top & rest & _ & ->) & _).
    destruct (decide (cache_key query year = k)) as [->|Hne].
    + rewrite lookup_insert_eq. intros [= <-]. exists top. reflexivity.
    + rewrite lookup_insert_ne by exact Hne. apply Hm.
Qed.

Lemma evolves_made st st' : evolves ask st st' -> cache_made st -> cache_made st'.
Proof.
  induction 1 as [st|st q y st' _ IH|st st' lang p _ IH]; intros Hm.
  - exact Hm.
  - apply search_tmdb_made, IH, Hm.
  - intros k r. simpl. apply (IH Hm).
Qed.

Lemma requests_need_key st query year :
  requests (new_events st (snd (search_tmdb ask st query year))) <> [] ->
  truthy (api_key st) = true.
Proof.
  intros Hne.
  destruct (search_tmdb ask st query year) as [res st'] eqn:H.
  pose proof (search_tmdb_new_events st query year) as Hlog. rewrite H in Hlog.
  simpl in Hlog, Hne.
  destruct (search_tmdb_requests ask _ _ _ _ _ _ H Hlog)
    as [Hnil|(o & p' & evs0 & _ & Hk & _)]; [contradiction | exact Hk].
Qed.

(** X6 ([search_tmdb]). A resolution sends at most six requests. *)
Theorem X6_at_most_six_requests st query year :
  length (requests (new_events st (snd (search_tmdb ask st query year)))) <= 6.
Proof.
  etransitivity; [apply (resolution_requests st query year) | apply searches_length].
Qed.

(** X7 ([search_tmdb]). Every request of a resolution carries the API key
    and the language of the session and asks for page 1; its query is the
    title, the title with its numbers as Roman numerals, or the first two
    words of the title, and never the empty text or the word the alone;
    its year is the year of the resolution or none. No request is sent
    without an API key. *)
Theorem X7_requests_well_formed st query year :
  Forall (fun pr =>
      truthy (api_key st) = true /\
      p_api_key (fst pr) = api_key st /\
      p_language (fst pr) = language st /\
      p_page (fst pr) = 1 /\
      In (p_query (fst pr)) (ladder_queries query) /\
      skipped (p_query (fst pr)) = false /\
      (p_year (fst pr) = None \/ p_year (fst pr) = year))
    (requests (new_events st (snd (search_tmdb ask st query year)))).
Proof.
  apply List.Forall_forall. intros [prm resp] Hin.
  assert (Hk : truthy (api_key st) = true).
  { apply (requests_need_key st query year). intros Hnil. rewrite Hnil in Hin. destruct Hin. }
  apply (resolution_requests st query year) in Hin.
  apply attempted_In in Hin as (q & y & Hs & Hskip & ->).
  apply searches_In in Hs as [Hq Hy]. cbn [fst make_params p_api_key p_language p_page
    p_query p_year].
  repeat split; try assumption.
  destruct Hy as [-> | ->]; [left; reflexivity|].
  destruct (truthy_opt year) eqn:Ht; [right; reflexivity | left; reflexivity].
Qed.

(** X8 ([_process_files_thread]). A batch sends at most six requests for
    each of its files. *)
Theorem X8_batch_requests_bounded names st :
  length (requests (new_events st (snd (process_files ask st names))))
  <= 6 * length names.
Proof. apply process_files_requests. Qed.

(** X9 ([search_tmdb]). After a resolution the cache holds under the key
    of the title and year exactly what the resolution returned, a record
    or nothing, and every other key is as before; a resolution answered
    from the cache leaves the whole session as it was; no resolution
    changes the API key or the language. *)
Theorem X9_cache_agrees_with_result st query year :
  tmdb_cache (snd (search_tmdb ask st query year)) !! cache_key query year
    = fst (search_tmdb ask st query year) /\
  (forall k, k <> cache_key query year ->
     tmdb_cache (snd (search_tmdb ask st query year)) !! k = tmdb_cache st !! k) /\
  (forall r, tmdb_cache st !! cache_key query year = Some r ->
     snd (search_tmdb ask st query year) = st) /\
  api_key (snd (search_tmdb ask st query year)) = api_key st /\
  language (snd (search_tmdb ask st query year)) = language st.
Proof. apply (search_tmdb_cache st query year). Qed.

(** X10 ([search_tmdb]). In a session that started with an empty cache,
    every record a resolution returns was made from a candidate of the
    provider: it has the id of that candidate and is never the NOT FOUND
    placeholder. *)
Theorem X10_results_have_ids st0 st query year r :
  tmdb_cache st0 = ∅ ->
  evolves ask st0 st ->
  fst (search_tmdb ask st query year) = Some r ->
  exists top, r = make_result top /\ res_id r = Some (id top) /\ r <> not_found_dict.
Proof.
  intros Hempty Hev Hres.
  assert (Hm : cache_made (snd (search_tmdb ask st query year))).
  { apply search_tmdb_made. apply (evolves_made st0 st Hev).
    intros k r0 Hk. rewrite Hempty, lookup_empty in Hk. discriminate Hk. }
  destruct (search_tmdb_cache st query year) as (Hc & _).
  rewrite Hres in Hc. destruct (Hm _ _ Hc) as [top ->].
  exists top. split; [reflexivity|]. split; [reflexivity|].
  intros H. apply (f_equal res_id) in H. discriminate H.
Qed.

End SessionFacts.

Lemma X10_results_have_ids_witness :
  tmdb_cache session0 = ∅ /\
  evolves rocky_catalog session0 after_rocky /\
  fst (search_tmdb rocky_catalog after_rocky (str "Alien") None)
    = Some (make_result rocky_ii) /\
  exists top,
    make_result rocky_ii = make_result top /\
    res_id (make_result rocky_ii) = Some (id top) /\
    make_result rocky_ii <> not_found_dict.
Proof.
  assert (H1 : tmdb_cache session0 = ∅) by reflexivity.
  assert (H2 : evolves rocky_catalog session0 after_rocky)
    by (apply evolves_search, evolves_refl).
  assert (H3 : fst (search_tmdb rocky_catalog after_rocky (str "Alien") None)
               = Some (make_result rocky_ii))
    by (vm_compute; reflexivity).
  split; [exact H1|]. split; [exact H2|]. split; [exact H3|].
  exact (X10_results_have_ids rocky_catalog session0 after_rocky (str "Alien") None
           (make_result rocky_ii) H1 H2 H3).
Defined.

(** ** The entries of a batch *)

Section BatchFacts.
Context {P : Type} (ask : P -> params -> response * P).

Lemma process_file_entry st name :
  cache_made st ->
  fst (fst (fst (process_file ask st name))) = name /\
  entry_ok (fst (process_file ask st name)) /\
  cache_made (snd (process_file ask st name)).
Proof.
  intros Hm. unfold process_file, normalize.
  pose proof (search_tmdb_made ask st (clean_name name) (extract_year name) Hm) as Hm'.
  destruct (search_tmdb_cache ask st (clean_name name) (extract_year name)) as (Hc & _).
  destruct (search_tmdb ask st (clean_name name) (extract_year name)) as [[r|] st'];
    cbn [fst snd] in *.
  - split; [reflexivity|]. split; [|exact Hm'].
    unfold entry_ok. cbn [fst snd]. apply (Hm' _ _ Hc).
  - split; [reflexivity|]. split; [reflexivity | exact Hm'].
Qed.

Lemma process_files_entries names : forall st,
  cache_made st ->
  map (fun item => fst (fst item)) (fst (process_files ask st names)) = names /\
  Forall entry_ok (fst (process_files ask st names)).
Proof.
  induction names as [|name rest IH]; intros st Hm.
  - split; [reflexivity | constructor].
  - cbn [process_files].
    destruct (process_file_entry st name Hm) as (Hn & He & Hm1).
    destruct (process_file ask st name) as [item st1]. cbn [fst snd] in *.
    destruct (IH st1 Hm1) as (Hns & Hes).
    destruct (process_files ask st1 rest) as [items st2]. cbn [fst snd] in *.
    split.
    + cbn [map]. rewrite Hn, Hns. reflexivity.
    + constructor; assumption.
Qed.

(** X11 ([_process_files_thread]). In a session that started with an
    empty cache, a batch makes one entry for each of its files, in their
    order; the entry of a matched file has a record made from a candidate
    of the provider, and the entry of any other file has the NOT FOUND
    placeholder. *)
Theorem X11_batch_entries st0 st names :
  tmdb_cache st0 = ∅ ->
  evolves ask st0 st ->
  map (fun item => fst (fst item)) (fst (process_files ask st names)) = names /\
  Forall entry_ok (fst (process_files ask st names)).
Proof.
  intros Hempty Hev. apply process_files_entries.
  apply (evolves_made ask st0 st Hev).
  intros k r Hk. rewrite Hempty, lookup_empty in Hk. discriminate Hk.
Qed.

End BatchFacts.

Lemma X11_batch_entries_witness :
  tmdb_cache session0 = ∅ /\
  evolves yearless_catalog session0 session0 /\
  map (fun item => fst (fst item))
    (fst (process_files yearless_catalog session0
            [str "Rocky.II.1979.DVDRip"; str "the"]))
    = [str "Rocky.II.1979.DVDRip"; str "the"] /\
  Forall entry_ok
    (fst (process_files yearless_catalog session0
            [str "Rocky.II.1979.DVDRip"; str "the"])).
Proof.
  assert (H1 : tmdb_cache session0 = ∅) by reflexivity.
  assert (H2 : evolves yearless_catalog session0 session0) by apply evolves_refl.
  split; [exact H1|]. split; [exact H2|].
  exact (X11_batch_entries yearless_catalog session0 session0
           [str "Rocky.II.1979.DVDRip"; str "the"] H1 H2).
Defined.


Section RerunFacts.
Context {P : Type} (ask : P -> params -> response * P).

Lemma process_files_rerun names : forall st later,
  Forall (fun item => snd item = found) (fst (process_files ask st names)) ->
  (forall k r, tmdb_cache (snd (process_files ask st names)) !! k = Some r ->
               tmdb_cache later !! k = Some r) ->
  process_files ask later names = (fst (process_files ask st names), later).
Proof.
  induction names as [|name rest IH]; intros st later Hall Hsub; [reflexivity|].
  cbn [process_files] in *.
  pose proof (process_files_evolves ask rest (snd (process_file ask st name))) as Hev.
  unfold process_file, normalize in *.
  destruct (search_tmdb ask st (clean_name name) (extract_year name))
    as [[r|] st1] eqn:Hs; cbn [fst snd] in *.
  - pose proof (search_tmdb_some_cached ask _ _ _ _ _ Hs) as Hc.
    destruct (process_files ask st1 rest) as [items st2] eqn:Hrest. cbn [fst snd] in *.
    inversion Hall as [|? ? _ Hall']; subst.
    assert (Hlater : tmdb_cache later !! cache_key (clean_name name) (extract_year name)
                     = Some r)
      by (apply Hsub; eapply evolves_cache_mono; [exact Hev | exact Hc]).
    rewrite (search_tmdb_cached ask _ _ _ _ Hlater).
    specialize (IH st1 later). rewrite Hrest in IH. cbn [fst snd] in IH.
    rewrite (IH Hall' Hsub). reflexivity.
  - destruct (process_files ask st1 rest) as [items st2]. cbn [fst snd] in *.
    inversion Hall as [|? ? Hf _]; subst. discriminate Hf.
Qed.

(** X12 ([_process_files_thread], [search_tmdb]). When every file of a
    batch was matched, the batch can be run again later in the session
    without a single request: it makes the same entries and leaves the
    session as it is, whatever was resolved and whatever changed at the
    provider in between. *)
Theorem X12_matched_batch_reruns_from_cache st names later :
  Forall (fun item => snd item = found) (fst (process_files ask st names)) ->
  evolves ask (snd (process_files ask st names)) later ->
  process_files ask later names = (fst (process_files ask st names), later).
Proof.
  intros Hall Hev. apply process_files_rerun; [exact Hall|].
  intros k r Hk. eapply evolves_cache_mono; [exact Hev | exact Hk].
Qed.

End RerunFacts.

Lemma X12_matched_batch_reruns_from_cache_witness :
  Forall (fun item => snd item = found)
    (fst (process_files rocky_catalog session0 [str "Rocky.II.1979"; str "Alien (1979)"])) /\
  evolves rocky_catalog
    (snd (process_files rocky_catalog session0 [str "Rocky.II.1979"; str "Alien (1979)"]))
    (snd (process_files rocky_catalog session0 [str "Rocky.II.1979"; str "Alien (1979)"])) /\
  process_files rocky_catalog
    (snd (process_files rocky_catalog session0 [str "Rocky.II.1979"; str "Alien (1979)"]))
    [str "Rocky.II.1979"; str "Alien (1979)"]
  = (fst (process_files rocky_catalog session0 [str "Rocky.II.1979"; str "Alien (1979)"]),
     snd (process_files rocky_catalog session0 [str "Rocky.II.1979"; str "Alien (1979)"])).
Proof.
  assert (H1 : Forall (fun item => snd item = found)
                 (fst (process_files rocky_catalog session0
                         [str "Rocky.II.1979"; str "Alien (1979)"])))
    by (vm_compute; repeat constructor).
  assert (H2 : evolves rocky_catalog
                 (snd (process_files rocky_catalog session0
                         [str "Rocky.II.1979"; str "Alien (1979)"]))
                 (snd (process_files rocky_catalog session0
                         [str "Rocky.II.1979"; str "Alien (1979)"])))
    by apply evolves_refl.
  split; [exact H1|]. split; [exact H2|].
  exact (X12_matched_batch_reruns_from_cache rocky_catalog session0
           [str "Rocky.II.1979"; str "Alien (1979)"] _ H1 H2).
Defined.


(** ** Years *)

Section YearFacts.

(** A match found by a search starts somewhere in the text. *)
Lemma search_from_some r rest : forall prev pos mo,
  search_from r prev pos rest = Some mo ->
  exists pre rest' prev' c,
    rest = pre ++ rest' /\
    match_at r prev' (pos + length pre) rest' = Some c /\
    m_grp mo = c_grp c.
Proof.
  induction rest as [|a t IH]; intros prev pos mo H; cbn [search_from] in H.
  - destruct (match_at r prev pos []) as [c|] eqn:Hm; [|discriminate].
    inversion H; subst. exists [], [], prev, c. simpl. rewrite Nat.add_0_r. auto.
  - destruct (match_at r prev pos (a :: t)) as [c|] eqn:Hm.
    + inversion H; subst. exists [], (a :: t), prev, c. simpl. rewrite Nat.add_0_r. auto.
    + destruct (IH _ _ _ H) as (pre & rest' & prev' & c & -> & Hc & Hg).
      exists (a :: pre), rest', prev', c. simpl.
      replace (pos + S (length pre)) with (S pos + length pre) by lia. auto.
Qed.

(** A search finds a match when there is one somewhere. *)
Lemma search_from_complete r pre : forall rest prev pos,
  (forall prev', is_Some (match_at r prev' (pos + length pre) rest)) ->
  is_Some (search_from r prev pos (pre ++ rest)).
Proof.
  induction pre as [|a pre IH]; intros rest prev pos H.
  - simpl in *. rewrite Nat.add_0_r in H.
    destruct rest as [|b t]; cbn [search_from];
      destruct (H prev) as [c ->]; eauto.
  - simpl app. cbn [search_from].
    destruct (match_at r prev pos (a :: pre ++ rest)); [eauto|].
    apply IH. intros prev'. simpl in H.
    replace (S pos + length pre) with (pos + S (length pre)) by lia. apply H.
Qed.

Lemma slice_four (pre : list ascii) a d1 d2 d3 d4 post i j :
  i = S (length pre) -> j = i + 4 ->
  slice i j (pre ++ a :: d1 :: d2 :: d3 :: d4 :: post) = [d1; d2; d3; d4].
Proof.
  intros -> ->. unfold slice.
  replace (S (length pre) + 4 - S (length pre)) with 4 by lia.
  change (pre ++ a :: d1 :: d2 :: d3 :: d4 :: post)
    with (pre ++ [a] ++ d1 :: d2 :: d3 :: d4 :: post).
  rewrite app_assoc.
  replace (S (length pre)) with (length (pre ++ [a]))
    by (rewrite length_app; simpl; lia).
  rewrite drop_app_length. reflexivity.
Qed.

Lemma match_at_paren_year prev pos rest c :
  match_at paren_year_re prev pos rest = Some c ->
  exists d1 d2 d3 d4 t,
    rest = "("%char :: d1 :: d2 :: d3 :: d4 :: ")"%char :: t /\
    Forall (fun x => is_digit x = true) [d1; d2; d3; d4] /\
    c_grp c = Some (S pos, S (S (S (S (S pos))))).
Proof.
  unfold match_at, paren_year_re, digits4, chr. cbn [seqs rmatch c_rest c_pos c_grp c_prev].
  destruct rest as [|a0 [|d1 [|d2 [|d3 [|d4 [|a5 t]]]]]]; cbn [c_rest];
    repeat match goal with
           | |- context [if ?b then _ else _] => destruct b eqn:?; cbn [c_rest c_pos c_grp c_prev]
           end; try discriminate.
  intros H. inversion H; subst. simpl.
  repeat match goal with H : Ascii.eqb _ _ = true |- _ => apply Ascii.eqb_eq in H; subst end.
  exists d1, d2, d3, d4, t. repeat split; try reflexivity.
  repeat constructor; assumption.
Qed.

Lemma match_at_batch_year prev pos rest c :
  match_at batch_year_re prev pos rest = Some c ->
  exists s1 d1 d2 d3 d4 s2 t,
    rest = s1 :: d1 :: d2 :: d3 :: d4 :: s2 :: t /\
    sep_or_space s1 = true /\ sep_or_space s2 = true /\
    one_of (str "12") d1 = true /\
    Forall (fun x => is_digit x = true) [d2; d3; d4] /\
    c_grp c = Some (S pos, S (S (S (S (S pos))))).
Proof.
  unfold match_at, batch_year_re, year_digits. cbn [seqs rmatch c_rest c_pos c_grp c_prev].
  destruct rest as [|a0 [|d1 [|d2 [|d3 [|d4 [|a5 t]]]]]]; cbn [c_rest];
    repeat match goal with
           | |- context [if ?b then _ else _] => destruct b eqn:?; cbn [c_rest c_pos c_grp c_prev]
           end; try discriminate.
  intros H. inversion H; subst. simpl.
  exists a0, d1, d2, d3, d4, a5, t. repeat split; try assumption.
  repeat constructor; assumption.
Qed.

Lemma one_two_digit d : one_of (str "12") d = true -> is_digit d = true.
Proof.
  destruct d as [[] [] [] [] [] [] [] []]; vm_compute; intros H;
    first [discriminate H | reflexivity].
Qed.

Lemma sep_or_space_not_digit x : sep_or_space x = true -> is_digit x = false.
Proof.
  destruct x as [[] [] [] [] [] [] [] []]; vm_compute; intros H;
    first [discriminate H | reflexivity].
Qed.

Lemma digit_not_one_two x : is_digit x = false -> one_of (str "12") x = false.
Proof.
  destruct x as [[] [] [] [] [] [] [] []]; vm_compute; intros H;
    first [discriminate H | reflexivity].
Qed.

(** Where the batch pattern matches, the pattern of the override dialog
    matches as well. *)
Lemma match_at_override_of_batch prev pos s1 d1 d2 d3 d4 s2 t :
  is_digit s1 = false -> is_digit s2 = false ->
  one_of (str "12") d1 = true ->
  is_digit d2 = true -> is_digit d3 = true -> is_digit d4 = true ->
  is_Some (match_at override_year_re prev pos (s1 :: d1 :: d2 :: d3 :: d4 :: s2 :: t)).
Proof.
  intros H1 H2 Hd1 Hd2 Hd3 Hd4.
  unfold match_at, override_year_re, year_digits.
  cbn [seqs rmatch c_rest c_pos c_grp c_prev].
  rewrite (digit_not_one_two _ H1), H1, Hd1, Hd2, Hd3, Hd4, H2.
  cbn [negb c_rest c_pos c_grp c_prev].
  destruct (pos =? 0); eauto.
Qed.

Lemma match_at_override_year prev pos rest c :
  match_at override_year_re prev pos rest = Some c ->
  exists pre d1 d2 d3 d4 post,
    rest = pre ++ d1 :: d2 :: d3 :: d4 :: post /\
    Forall (fun x => is_digit x = true) [d1; d2; d3; d4] /\
    c_grp c = Some (pos + length pre, pos + length pre + 4).
Proof.
  unfold match_at, override_year_re, year_digits.
  cbn [seqs rmatch c_rest c_pos c_grp c_prev].
  intros H.
  assert (Hshape :
    (exists d1 d2 d3 d4 post, rest = d1 :: d2 :: d3 :: d4 :: post /\
       one_of (str "12") d1 = true /\ is_digit d2 = true /\ is_digit d3 = true /\
       is_digit d4 = true /\ c_grp c = Some (pos, S (S (S (S pos))))) \/
    (exists x d1 d2 d3 d4 post, rest = x :: d1 :: d2 :: d3 :: d4 :: post /\
       one_of (str "12") d1 = true /\ is_digit d2 = true /\ is_digit d3 = true /\
       is_digit d4 = true /\ c_grp c = Some (S pos, S (S (S (S (S pos))))))).
  { destruct rest as [|a0 [|a1 [|a2 [|a3 [|a4 [|a5 t]]]]]]; cbn [c_rest] in H;
      repeat match type of H with
             | context [if ?b then _ else _] =>
                 destruct b eqn:?; cbn [c_rest c_pos c_grp c_prev at_eol] in H
             end; try discriminate H;
      inversion H; subst; cbn [c_grp];
      first [ left; do 5 eexists; repeat split; (reflexivity || eassumption)
            | right; do 6 eexists; repeat split; (reflexivity || eassumption) ]. }
  destruct Hshape as [(d1 & d2 & d3 & d4 & post & -> & H1 & H2 & H3 & H4 & Hg)
                     |(x & d1 & d2 & d3 & d4 & post & -> & H1 & H2 & H3 & H4 & Hg)].
  - exists [], d1, d2, d3, d4, post. simpl. rewrite Nat.add_0_r.
    repeat split; [|rewrite Hg; f_equal; f_equal; lia].
    repeat constructor; try assumption. apply one_two_digit, H1.
  - exists [x], d1, d2, d3, d4, post. simpl.
    repeat split; [|rewrite Hg; f_equal; f_equal; lia].
    repeat constructor; try assumption. apply one_two_digit, H1.
Qed.

Lemma slice_mid (a m b : list ascii) i j :
  i = length a -> j = i + length m -> slice i j (a ++ m ++ b) = m.
Proof.
  intros -> ->. unfold slice.
  replace (length a + length m - length a) with (length m) by lia.
  rewrite drop_app_length, take_app_length. reflexivity.
Qed.

Lemma year_ok_four d1 d2 d3 d4 :
  Forall (fun x => is_digit x = true) [d1; d2; d3; d4] -> year_ok (Some [d1; d2; d3; d4]).
Proof. intros H. split; [reflexivity | exact H]. Qed.

Lemma search_paren_year name mo :
  search paren_year_re name = Some mo ->
  exists y, group1 name mo = Some y /\ year_ok (Some y) /\ truthy y = true.
Proof.
  intros H. destruct (search_from_some _ _ _ _ _ H) as (pre & rest & prev & c & -> & Hm & Hg).
  destruct (match_at_paren_year _ _ _ _ Hm) as (d1 & d2 & d3 & d4 & t & -> & Hd & Hc).
  exists [d1; d2; d3; d4]. unfold group1. rewrite Hg, Hc. split; [|split; [apply year_ok_four, Hd | reflexivity]].
  f_equal.
  replace (pre ++ "("%char :: d1 :: d2 :: d3 :: d4 :: ")"%char :: t)
    with ((pre ++ ["("%char]) ++ [d1; d2; d3; d4] ++ ")"%char :: t)
    by (rewrite <- app_assoc; reflexivity).
  apply slice_mid; [rewrite length_app; simpl; lia | simpl; lia].
Qed.

Lemma search_batch_year name mo :
  search batch_year_re name = Some mo ->
  exists y, group1 name mo = Some y /\ year_ok (Some y).
Proof.
  intros H. destruct (search_from_some _ _ _ _ _ H) as (pre & rest & prev & c & -> & Hm & Hg).
  destruct (match_at_batch_year _ _ _ _ Hm)
    as (s1 & d1 & d2 & d3 & d4 & s2 & t & -> & _ & _ & H1 & Hd & Hc).
  exists [d1; d2; d3; d4]. unfold group1. rewrite Hg, Hc.
  split; [|apply year_ok_four; constructor; [apply one_two_digit, H1 | exact Hd]].
  f_equal.
  replace (pre ++ s1 :: d1 :: d2 :: d3 :: d4 :: s2 :: t)
    with ((pre ++ [s1]) ++ [d1; d2; d3; d4] ++ s2 :: t)
    by (rewrite <- app_assoc; reflexivity).
  apply slice_mid; [rewrite length_app; simpl; lia | simpl; lia].
Qed.

Lemma search_override_year name mo :
  search override_year_re name = Some mo ->
  exists y, group1 name mo = Some y /\ year_ok (Some y).
Proof.
  intros H. destruct (search_from_some _ _ _ _ _ H) as (pre & rest & prev & c & -> & Hm & Hg).
  destruct (match_at_override_year _ _ _ _ Hm)
    as (pre' & d1 & d2 & d3 & d4 & post & -> & Hd & Hc).
  exists [d1; d2; d3; d4]. unfold group1. rewrite Hg, Hc.
  split; [|apply year_ok_four, Hd].
  f_equal.
  replace (pre ++ pre' ++ d1 :: d2 :: d3 :: d4 :: post)
    with ((pre ++ pre') ++ [d1; d2; d3; d4] ++ post)
    by (rewrite <- app_assoc; reflexivity).
  apply slice_mid; [rewrite length_app; simpl; lia | simpl; lia].
Qed.

Lemma extract_year_ok name : year_ok (extract_year name).
Proof.
  unfold extract_year.
  destruct (search paren_year_re name) as [mo|] eqn:Hp.
  - destruct (search_paren_year _ _ Hp) as (y & -> & Hy & Ht).
    simpl. rewrite Ht. exact Hy.
  - simpl. destruct (search batch_year_re name) as [mo|] eqn:Hb.
    + destruct (search_batch_year _ _ Hb) as (y & -> & Hy).
      destruct (bool_decide _); [exact Hy | exact I].
    + destruct (bool_decide _); exact I.
Qed.

Lemma override_year_ok name : year_ok (override_year name).
Proof.
  unfold override_year.
  destruct (search paren_year_re name) as [mo|] eqn:Hp.
  - destruct (search_paren_year _ _ Hp) as (y & -> & Hy & Ht).
    simpl. rewrite Ht. exact Hy.
  - simpl. destruct (search override_year_re name) as [mo|] eqn:Hb.
    + destruct (search_override_year _ _ Hb) as (y & -> & Hy). exact Hy.
    + exact I.
Qed.

(** The override dialog finds a year whenever the batch path finds one. *)
Lemma override_year_of_batch name :
  is_Some (extract_year name) -> is_Some (override_year name).
Proof.
  unfold extract_year, override_year.
  destruct (search paren_year_re name) as [mo|] eqn:Hp.
  - destruct (search_paren_year _ _ Hp) as (y & -> & Hy & Ht).
    simpl. rewrite Ht. simpl. eauto.
  - simpl. destruct (search batch_year_re name) as [mo|] eqn:Hb.
    + intros _.
      destruct (search_from_some _ _ _ _ _ Hb) as (pre & rest & prev & c & -> & Hm & _).
      destruct (match_at_batch_year _ _ _ _ Hm)
        as (s1 & d1 & d2 & d3 & d4 & s2 & t & -> & Hs1 & Hs2 & H1 & Hd & _).
      inversion Hd as [|? ? Hd2 Hd']; subst. inversion Hd' as [|? ? Hd3 Hd'']; subst.
      inversion Hd'' as [|? ? Hd4 _]; subst.
      assert (Hs : is_Some (search override_year_re
                    (pre ++ s1 :: d1 :: d2 :: d3 :: d4 :: s2 :: t))).
      { apply search_from_complete. intros prev'.
        apply match_at_override_of_batch; auto using sep_or_space_not_digit. }
      destruct Hs as [mo' Hmo']. rewrite Hmo'.
      destruct (search_override_year _ _ Hmo') as (y & -> & _). eauto.
    + destruct (bool_decide _); intros [y Hy]; discriminate Hy.
Qed.

Lemma cache_key_inj t1 y1 t2 y2 :
  year_ok y1 -> year_ok y2 -> cache_key t1 y1 = cache_key t2 y2 -> t1 = t2 /\ y1 = y2.
Proof.
  unfold cache_key. intros H1 H2 H. rewrite !app_assoc in H.
  assert (Hlen : forall y, year_ok y ->
            length (match y with Some s => s | None => str "None" end) = 4).
  { intros [s|] Hy; [apply Hy | reflexivity]. }
  apply app_inj_2 in H as [Ht Hy]; [|rewrite !Hlen by assumption; reflexivity].
  apply app_inv_tail in Ht. split; [exact Ht|].
  destruct y1 as [s1|], y2 as [s2|]; subst; try reflexivity.
  - destruct H1 as [_ Hd]. inversion Hd as [|? ? Hn _]. discriminate Hn.
  - destruct H2 as [_ Hd]. inversion Hd as [|? ? Hn _]. discriminate Hn.
Qed.

End YearFacts.

(** X13 (the year of [_process_files_thread]). The year the batch path
    takes from a file name is none or four digits. *)
Theorem X13_extract_year_four_digits (name : list ascii) : year_ok (extract_year name).
Proof. apply extract_year_ok. Qed.

(** X14 (the year of [show_tmdb_override]). The year the override dialog
    takes from a file name is none or four digits, and the dialog finds a
    year in every name in which the batch path finds one. *)
Theorem X14_override_year_covers_batch (name : list ascii) :
  year_ok (override_year name) /\
  (is_Some (extract_year name) -> is_Some (override_year name)).
Proof. split; [apply override_year_ok | apply override_year_of_batch]. Qed.

(** X15 (the cache key of [search_tmdb]). With years that are none or four
    digits, as the two paths take them from file names, the cache key
    tells title and year: two resolutions share a cache entry only when
    they have the same title and the same year. *)
Theorem X15_cache_key_injective (query1 query2 : list ascii)
    (year1 year2 : option (list ascii)) :
  year_ok year1 -> year_ok year2 ->
  cache_key query1 year1 = cache_key query2 year2 ->
  query1 = query2 /\ year1 = year2.
Proof. apply cache_key_inj. Qed.

Lemma X15_cache_key_injective_witness :
  year_ok (extract_year (str "Rocky II (1979)")) /\
  year_ok (override_year (str "Rocky.II.1979")) /\
  cache_key (str "Rocky II") (extract_year (str "Rocky II (1979)"))
    = cache_key (str "Rocky II") (override_year (str "Rocky.II.1979")) /\
  extract_year (str "Rocky II (1979)") = override_year (str "Rocky.II.1979").
Proof.
  assert (H1 : year_ok (extract_year (str "Rocky II (1979)")))
    by (vm_compute; split; [reflexivity | repeat constructor]).
  assert (H2 : year_ok (override_year (str "Rocky.II.1979")))
    by (vm_compute; split; [reflexivity | repeat constructor]).
  assert (H3 : cache_key (str "Rocky II") (extract_year (str "Rocky II (1979)"))
               = cache_key (str "Rocky II") (override_year (str "Rocky.II.1979")))
    by (vm_compute; reflexivity).
  split; [exact H1|]. split; [exact H2|]. split; [exact H3|].
  exact (proj2 (X15_cache_key_injective _ _ _ _ H1 H2 H3)).
Defined.

(** ** The preview list *)

Section PreviewFacts.
Context (basename : list ascii -> list ascii).

Lemma find_movie_spec {A : Type} (data : list A) : forall index line_count i,
  line_count <= index ->
  (index < line_count + 5 * length data ->
   find_movie index line_count i data = i + (index - line_count) / 5) /\
  (line_count + 5 * length data <= index ->
   find_movie index line_count i data = 0).
Proof.
  induction data as [|a rest IH]; intros index lc i Hle.
  - simpl. split; [lia | reflexivity].
  - cbn [find_movie length]. destruct (index <? lc + 5) eqn:Hlt.
    + apply Nat.ltb_lt in Hlt. split; [|lia].
      intros _. rewrite Nat.div_small by lia. lia.
    + apply Nat.ltb_ge in Hlt. destruct (IH index (lc + 5) (S i) Hlt) as [H1 H2].
      split.
      * intros H. rewrite H1 by lia.
        replace (index - lc) with ((index - (lc + 5)) + 1 * 5) by lia.
        rewrite Nat.div_add by lia. lia.
      * intros H. apply H2. lia.
Qed.

Lemma lookup_chunks {A B : Type} (f : A -> list B) (l : list A) : forall index,
  (forall x, length (f x) = 5) ->
  concat (map f l) !! index =
    match l !! (index / 5) with
    | Some e => f e !! (index mod 5)
    | None => None
    end.
Proof.
  induction l as [|a l IH]; intros index Hf; [reflexivity|].
  cbn [map concat]. destruct (decide (index < 5)) as [Hlt|Hge].
  - rewrite lookup_app_l by (rewrite Hf; exact Hlt).
    rewrite Nat.div_small, Nat.mod_small by exact Hlt. reflexivity.
  - rewrite lookup_app_r by (rewrite Hf; lia). rewrite Hf, IH by exact Hf.
    assert (Hd : index / 5 = S ((index - 5) / 5)).
    { replace index with ((index - 5) + 1 * 5) at 1 by lia.
      rewrite Nat.div_add by lia. lia. }
    assert (Hm : index mod 5 = (index - 5) mod 5).
    { replace index with ((index - 5) + 1 * 5) at 1 by lia.
      apply Nat.Div0.mod_add. }
    rewrite Hd, Hm. reflexivity.
Qed.

Lemma display_length e : length (display_preview_item basename e) = 5.
Proof. reflexivity. Qed.

Lemma filter_all {A : Type} (f : A -> bool) l : (forall x, f x = true) -> List.filter f l = l.
Proof.
  intros H. induction l as [|a l IH]; [reflexivity|]. simpl. rewrite H, IH. reflexivity.
Qed.

Lemma shown_unfiltered filter_var e :
  filter_var <> str "Found" -> filter_var <> str "Not Found" ->
  shown basename [] filter_var e = true.
Proof.
  intros H1 H2. unfold shown.
  rewrite !bool_decide_eq_false_2 by assumption. reflexivity.
Qed.

Lemma apply_filters_unfiltered filter_var data :
  filter_var <> str "Found" -> filter_var <> str "Not Found" ->
  apply_filters basename [] filter_var data = concat (map (display_preview_item basename) data).
Proof.
  intros H1 H2. unfold apply_filters.
  rewrite filter_all by (intros e; apply shown_unfiltered; assumption). reflexivity.
Qed.

Lemma apply_filters_length search_var filter_var data :
  length (apply_filters basename search_var filter_var data)
  = 5 * length (List.filter (shown basename search_var filter_var) data).
Proof.
  unfold apply_filters.
  induction (List.filter (shown basename search_var filter_var) data) as [|e l IH];
    [reflexivity|].
  cbn [map concat length]. rewrite length_app, IH, display_length. lia.
Qed.

Lemma starts_with_app n b : starts_with n (n ++ b) = true.
Proof.
  induction n as [|a n IH]; [reflexivity|]. simpl. rewrite Ascii.eqb_refl. exact IH.
Qed.

Lemma starts_with_inv n : forall h, starts_with n h = true -> exists b, h = n ++ b.
Proof.
  induction n as [|a n IH]; intros h H; [exists h; reflexivity|].
  destruct h as [|c h]; [discriminate|]. simpl in H.
  apply andb_true_iff in H as [Ha Hn]. apply Ascii.eqb_eq in Ha. subst c.
  destruct (IH _ Hn) as (b & ->). exists b. reflexivity.
Qed.

Lemma contains_iff n h : contains n h = true <-> exists a b, h = a ++ n ++ b.
Proof.
  split.
  - induction h as [|c h IH]; cbn [contains]; intros H.
    + rewrite orb_false_r in H. destruct (starts_with_inv _ _ H) as (b & Hb).
      exists [], b. exact Hb.
    + apply orb_true_iff in H as [H|H].
      * destruct (starts_with_inv _ _ H) as (b & Hb). exists [], b. exact Hb.
      * destruct (IH H) as (a & b & ->). exists (c :: a), b. reflexivity.
  - intros (a & b & ->). induction a as [|c a IH].
    + simpl app. destruct (n ++ b) eqn:E; cbn [contains]; rewrite <- E, starts_with_app;
        reflexivity.
    + simpl app. cbn [contains]. rewrite IH. apply orb_true_r.
Qed.

Lemma contains_trans a b c :
  contains a b = true -> contains b c = true -> contains a c = true.
Proof.
  intros (a1 & a2 & ->)%contains_iff (b1 & b2 & ->)%contains_iff.
  apply contains_iff. exists (b1 ++ a1), (a2 ++ b2). rewrite <- !app_assoc. reflexivity.
Qed.

Lemma contains_lower a b : contains a b = true -> contains (lower a) (lower b) = true.
Proof.
  intros (a1 & a2 & ->)%contains_iff. apply contains_iff.
  exists (lower a1), (lower a2). unfold lower. rewrite !map_app. reflexivity.
Qed.

Lemma contains_nil_inv a : contains a [] = true -> a = [].
Proof.
  intros (a1 & a2 & H)%contains_iff. symmetry in H.
  apply app_eq_nil in H as [_ H]. apply app_eq_nil in H as [H _]. exact H.
Qed.

(** An entry shown for a search term is shown for every part of it. *)
Lemma shown_narrow t1 t2 filter_var e :
  contains t1 t2 = true ->
  shown basename t2 filter_var e = true -> shown basename t1 filter_var e = true.
Proof.
  intros Hc. apply contains_lower in Hc. unfold shown.
  destruct (_ && _); [intros H; exact H|].
  destruct (_ && _); [intros H; exact H|].
  destruct (lower t2) as [|c2 l2] eqn:E2.
  - apply contains_nil_inv in Hc. rewrite Hc. intros _. reflexivity.
  - cbn [truthy]. destruct (truthy (lower t1)); [|reflexivity].
    rewrite !orb_true_iff. intros [[H|H]|H];
      [left; left | left; right | right]; eapply contains_trans; eassumption.
Qed.

Lemma filter_display_sublist (f g : preview_entry -> bool) data :
  (forall e, f e = true -> g e = true) ->
  concat (map (display_preview_item basename) (List.filter f data))
  `sublist_of` concat (map (display_preview_item basename) (List.filter g data)).
Proof.
  intros Hfg. induction data as [|e data IH]; [reflexivity|].
  cbn [List.filter]. destruct (f e) eqn:Hf.
  - rewrite (Hfg _ Hf). cbn [map concat]. apply sublist_app; [reflexivity | exact IH].
  - destruct (g e); [|exact IH]. cbn [map concat].
    apply sublist_inserts_l. exact IH.
Qed.

End PreviewFacts.

Lemma double_click_in_range {A : Type} (preview_data : list A) index others :
  index < 5 * length preview_data ->
  on_preview_double_click (index :: others) preview_data = Some (index / 5).
Proof.
  intros H. destruct (find_movie_spec preview_data index 0 0 (Nat.le_0_l _)) as [H1 _].
  unfold on_preview_double_click. rewrite H1 by exact H.
  rewrite Nat.sub_0_r, Nat.add_0_l.
  replace (index / 5 <? length preview_data) with true; [reflexivity|].
  symmetry. apply Nat.ltb_lt. apply Nat.Div0.div_lt_upper_bound. lia.
Qed.

Lemma length_shown (f : preview_entry -> bool) data : length (List.filter f data) <= length data.
Proof.
  induction data as [|e t IH]; [reflexivity|].
  cbn [List.filter]. destruct (f e); cbn [length]; lia.
Qed.

(** X16 ([on_preview_double_click]). A double click on a line of the list
    box opens the entry whose number is the line number divided by five,
    as long as the line is one of the first five times as many lines as
    there are entries; a click on a later line opens the first entry, and
    nothing is opened when there is no entry or no line is selected. *)
Theorem X16_double_click_entry {A : Type} (preview_data : list A) (index : nat)
    (others : list nat) :
  (index < 5 * length preview_data ->
   on_preview_double_click (index :: others) preview_data = Some (index / 5)) /\
  (5 * length preview_data <= index -> preview_data <> [] ->
   on_preview_double_click (index :: others) preview_data = Some 0) /\
  on_preview_double_click (index :: others) (@nil A) = None /\
  on_preview_double_click [] preview_data = None.
Proof.
  split; [apply double_click_in_range|]. split; [|split; reflexivity].
  intros H Hne.
  destruct (find_movie_spec preview_data index 0 0 (Nat.le_0_l _)) as [_ H2].
  unfold on_preview_double_click. rewrite H2 by exact H.
  destruct preview_data; [contradiction | reflexivity].
Qed.

(** X17 ([apply_filters], [on_preview_double_click]). The filters are not
    taken into account by the double click: on a line of the filtered list
    box, which shows the entry with a certain number among the displayed
    entries, it opens the entry that has this number among all entries. *)
Theorem X17_double_click_counts_all_entries (basename : list ascii -> list ascii)
    (search_var filter_var : list ascii) (preview_data : list preview_entry)
    (index : nat) :
  index < length (apply_filters basename search_var filter_var preview_data) ->
  exists opened displayed,
    on_preview_double_click [index] preview_data = Some (index / 5) /\
    preview_data !! (index / 5) = Some opened /\
    List.filter (shown basename search_var filter_var) preview_data !! (index / 5)
      = Some displayed /\
    apply_filters basename search_var filter_var preview_data !! index
      = display_preview_item basename displayed !! (index mod 5).
Proof.
  intros Hlt. rewrite apply_filters_length in Hlt.
  pose proof (length_shown (shown basename search_var filter_var) preview_data) as Hle.
  assert (Hk : index / 5 < length (List.filter (shown basename search_var filter_var)
                                     preview_data))
    by (apply Nat.Div0.div_lt_upper_bound; lia).
  destruct (lookup_lt_is_Some_2 _ _ Hk) as [displayed Hd].
  destruct (lookup_lt_is_Some_2 preview_data (index / 5)) as [opened Ho]; [lia|].
  exists opened, displayed.
  split; [apply double_click_in_range; lia|]. split; [exact Ho|]. split; [exact Hd|].
  unfold apply_filters.
  rewrite lookup_chunks by (intros x; apply display_length).
  rewrite Hd. reflexivity.
Qed.

Lemma X17_double_click_counts_all_entries_witness :
  1 < length (apply_filters base_of [] (str "Found") sample_preview) /\
  exists opened displayed,
    on_preview_double_click [1] sample_preview = Some (1 / 5) /\
    sample_preview !! (1 / 5) = Some opened /\
    List.filter (shown base_of [] (str "Found")) sample_preview !! (1 / 5)
      = Some displayed /\
    apply_filters base_of [] (str "Found") sample_preview !! 1
      = display_preview_item base_of displayed !! (1 mod 5).
Proof.
  assert (H : 1 < length (apply_filters base_of [] (str "Found") sample_preview))
    by (vm_compute; lia).
  split; [exact H|].
  exact (X17_double_click_counts_all_entries base_of [] (str "Found") sample_preview 1 H).
Defined.

(** X18 ([apply_filters], [display_preview_item],
    [on_preview_double_click]). When the list box was filled without a
    status filter and without a search term, it has five lines for each
    entry, and a double click on any of its lines opens the entry the line
    was displayed for. *)
Theorem X18_double_click_opens_displayed_entry (basename : list ascii -> list ascii)
    (filter_var : list ascii) (preview_data : list preview_entry) (index : nat) :
  filter_var <> str "Found" -> filter_var <> str "Not Found" ->
  index < length (apply_filters basename [] filter_var preview_data) ->
  length (apply_filters basename [] filter_var preview_data) = 5 * length preview_data /\
  exists e,
    on_preview_double_click [index] preview_data = Some (index / 5) /\
    preview_data !! (index / 5) = Some e /\
    apply_filters basename [] filter_var preview_data !! index
      = display_preview_item basename e !! (index mod 5).
Proof.
  intros H1 H2 Hlt.
  assert (Hlen : length (apply_filters basename [] filter_var preview_data)
                 = 5 * length preview_data).
  { rewrite apply_filters_length, filter_all; [reflexivity|].
    intros e. apply shown_unfiltered; assumption. }
  split; [exact Hlen|]. rewrite Hlen in Hlt.
  assert (Hk : index / 5 < length preview_data)
    by (apply Nat.Div0.div_lt_upper_bound; lia).
  destruct (lookup_lt_is_Some_2 preview_data (index / 5) Hk) as [e He].
  exists e. split; [apply double_click_in_range; exact Hlt|]. split; [exact He|].
  rewrite apply_filters_unfiltered by assumption.
  rewrite lookup_chunks by (intros x; apply display_length).
  rewrite He. reflexivity.
Qed.

Lemma X18_double_click_opens_displayed_entry_witness :
  str "All" <> str "Found" /\ str "All" <> str "Not Found" /\
  7 < length (apply_filters base_of [] (str "All") sample_preview) /\
  length (apply_filters base_of [] (str "All") sample_preview) = 5 * length sample_preview /\
  exists e,
    on_preview_double_click [7] sample_preview = Some (7 / 5) /\
    sample_preview !! (7 / 5) = Some e /\
    apply_filters base_of [] (str "All") sample_preview !! 7
      = display_preview_item base_of e !! (7 mod 5).
Proof.
  assert (H1 : str "All" <> str "Found") by (vm_compute; discriminate).
  assert (H2 : str "All" <> str "Not Found") by (vm_compute; discriminate).
  assert (H3 : 7 < length (apply_filters base_of [] (str "All") sample_preview))
    by (vm_compute; lia).
  split; [exact H1|]. split; [exact H2|]. split; [exact H3|].
  exact (X18_double_click_opens_displayed_entry base_of (str "All") sample_preview 7
           H1 H2 H3).
Defined.

(** X19 ([apply_filters]). Typing more into the search box never brings
    lines back: what is displayed for a search term is, in the same order,
    among what is displayed for any part of that term, under the same
    status filter. *)
Theorem X19_search_narrows (basename : list ascii -> list ascii)
    (term longer filter_var : list ascii) (preview_data : list preview_entry) :
  contains term longer = true ->
  apply_filters basename longer filter_var preview_data
    `sublist_of` apply_filters basename term filter_var preview_data.
Proof.
  intros H. apply filter_display_sublist.
  intros e. apply shown_narrow. exact H.
Qed.

Lemma X19_search_narrows_witness :
  contains (str "Rock") (str "Rocky") = true /\
  apply_filters base_of (str "Rocky") (str "All") sample_preview
    `sublist_of` apply_filters base_of (str "Rock") (str "All") sample_preview.
Proof.
  assert (H : contains (str "Rock") (str "Rocky") = true) by (vm_compute; reflexivity).
  split; [exact H|].
  exact (X19_search_narrows base_of (str "Rock") (str "Rocky") (str "All") sample_preview H).
Defined.

(** With the status filter on the matched files, the first line of the
    list box belongs to the matched file, and a double click on it opens
    the file that was not matched. *)
Example double_click_on_filtered_list :
  apply_filters base_of [] (str "Found") sample_preview !! 1
    = Some (str "OLD: Rocky.II.1979.DVDRip.avi") /\
  on_preview_double_click [1] sample_preview = Some 0 /\
  sample_preview !! 0 = Some unknown_entry.
Proof. vm_compute. repeat split. Qed.

(** ** Applying the renaming *)

Section MoverFacts.
Context {F : Type} (os : os_api F).

Lemma removes_follow_copies_app a b :
  removes_follow_copies a -> removes_follow_copies b -> removes_follow_copies (a ++ b).
Proof.
  intros Ha Hb i path r Hi.
  destruct (decide (i < length a)) as [Hlt|Hge].
  - rewrite lookup_app_l in Hi by exact Hlt.
    destruct (Ha _ _ _ Hi) as (j & dst & msg & -> & H1 & H2).
    exists j, dst, msg. split; [reflexivity|].
    rewrite !lookup_app_l by lia. auto.
  - rewrite lookup_app_r in Hi by lia.
    destruct (Hb _ _ _ Hi) as (j & dst & msg & Hj & H1 & H2).
    exists (length a + j), dst, msg. split; [lia|].
    rewrite !lookup_app_r by lia.
    replace (length a + j - length a) with j by lia.
    replace (S (length a + j) - length a) with (S j) by lia. auto.
Qed.

Lemma removes_follow_copies_nil : removes_follow_copies [].
Proof. intros i path r H. discriminate H. Qed.

Lemma rename_folder_ops fs file_dir new_folder :
  let '(r, _, ops) := rename_folder os fs file_dir new_folder in
  removes_follow_copies ops /\
  (r <> None -> exists op, ops = [op] /\ op_raised op = true) /\
  (ops <> [] -> file_dir <> new_folder /\ os_exists os fs new_folder = false).
Proof.
  unfold rename_folder.
  destruct (bool_decide (file_dir <> new_folder)) eqn:Hd;
    destruct (os_exists os fs new_folder) eqn:He; cbn [andb negb].
  2: { destruct (os_rename os fs file_dir new_folder) as [r fs1].
       apply bool_decide_eq_true in Hd.
       repeat split; try assumption.
       - intros i path r0 Hi. destruct i as [|[|i]]; discriminate Hi.
       - intros Hr. eexists; split; [reflexivity|].
         destruct r; [reflexivity | contradiction]. }
  all: repeat split; try apply removes_follow_copies_nil; congruence.
Qed.

Lemma rename_file_ops fs new_folder old_filename new_filepath :
  let '(r, _, ops) := rename_file os fs new_folder old_filename new_filepath in
  removes_follow_copies ops /\
  (r <> None -> Exists (fun op => op_raised op = true) ops).
Proof.
  unfold rename_file.
  destruct (os_exists os fs new_folder);
    [|split; [apply removes_follow_copies_nil | congruence]].
  destruct (_ && _); [|split; [apply removes_follow_copies_nil | congruence]].
  destruct (os_rename os fs _ new_filepath) as [[[m|m|m]|] fs1].
  - destruct (os_copy2 os fs1 _ new_filepath) as [[ce|] fs2].
    + split.
      * intros i path r0 Hi. destruct i as [|[|[|i]]]; discriminate Hi.
      * intros _. apply Exists_cons_hd. reflexivity.
    + destruct (os_remove os fs2 _) as [[ce|] fs3].
      * split.
        -- intros i path r0 Hi. destruct i as [|[|[|i]]]; try discriminate Hi.
           inversion Hi; subst. exists 0, new_filepath, m. repeat split.
        -- intros _. apply Exists_cons_hd. reflexivity.
      * split.
        -- intros i path r0 Hi. destruct i as [|[|[|i]]]; try discriminate Hi.
           inversion Hi; subst. exists 0, new_filepath, m. repeat split.
        -- congruence.
  - split.
    + intros i path r0 Hi. destruct i as [|[|i]]; discriminate Hi.
    + intros _. apply Exists_cons_hd. reflexivity.
  - split.
    + intros i path r0 Hi. destruct i as [|[|i]]; discriminate Hi.
    + intros _. apply Exists_cons_hd. reflexivity.
  - split.
    + intros i path r0 Hi. destruct i as [|[|i]]; discriminate Hi.
    + congruence.
Qed.

Lemma process_movie_ops fs e :
  let '(r, _, ops) := process_movie os fs e in
  removes_follow_copies ops /\
  (r <> None -> Exists (fun op => op_raised op = true) ops).
Proof.
  unfold process_movie.
  pose proof (rename_folder_ops fs (os_dirname os (pv_filepath e))
                (os_join os (os_dirname os (os_dirname os (pv_filepath e)))
                   (movie_folder_name (pv_tmdb_data e)))) as H1.
  destruct (rename_folder os _ _ _) as [[r1 fs1] ops1].
  destruct H1 as (Hs1 & Hr1 & _).
  destruct r1 as [err|].
  - split; [exact Hs1|]. intros _.
    destruct Hr1 as (op & -> & Hop); [discriminate|]. apply Exists_cons_hd. exact Hop.
  - pose proof (rename_file_ops fs1
                  (os_join os (os_dirname os (os_dirname os (pv_filepath e)))
                     (movie_folder_name (pv_tmdb_data e)))
                  (os_basename os (pv_filepath e))
                  (os_join os (os_join os (os_dirname os (os_dirname os (pv_filepath e)))
                           (movie_folder_name (pv_tmdb_data e))) (pv_new_name e))) as H2.
    destruct (rename_file os _ _ _ _) as [[r2 fs2] ops2].
    destruct H2 as (Hs2 & Hr2). split.
    + apply removes_follow_copies_app; assumption.
    + intros Hr. apply Exists_app. right. apply Hr2, Hr.
Qed.

Lemma process_loop_spec processable : forall st,
  exists new_failed new_ops,
    pr_failed (process_loop os st processable) = pr_failed st ++ new_failed /\
    pr_ops (process_loop os st processable) = pr_ops st ++ new_ops /\
    pr_success (process_loop os st processable) + length new_failed
      = pr_success st + length processable /\
    removes_follow_copies new_ops /\
    length new_failed <= length (List.filter op_raised new_ops) /\
    map fst new_failed `sublist_of` map pv_new_name processable.
Proof.
  induction processable as [|e rest IH]; intros st.
  - exists [], []. cbn [process_loop length map List.filter].
    rewrite !app_nil_r. repeat split; try lia.
    + apply removes_follow_copies_nil.
    + constructor.
  - cbn [process_loop].
    pose proof (process_movie_ops (pr_fs st) e) as Hm.
    destruct (process_movie os (pr_fs st) e) as [[r fs1] ops].
    destruct Hm as (Hs & Hr).
    destruct r as [err|].
    + destruct (IH (Progress fs1 (pr_success st)
                      (pr_failed st ++ [(pv_new_name e, failure_reason err)])
                      (pr_ops st ++ ops)))
        as (nf & no & Hf & Ho & Hc & Hsafe & Hle & Hsub).
      cbn [pr_failed pr_ops pr_success] in Hf, Ho, Hc.
      exists ((pv_new_name e, failure_reason err) :: nf), (ops ++ no).
      rewrite Hf, Ho, <- !app_assoc. cbn [app length map fst].
      repeat split; try lia.
      * apply removes_follow_copies_app; assumption.
      * rewrite List.filter_app, length_app.
        assert (1 <= length (List.filter op_raised ops)).
        { assert (Hex : Exists (fun op => op_raised op = true) ops) by (apply Hr; discriminate).
          clear -Hex. induction Hex as [op l Hop|op l _ IHl]; cbn [List.filter].
          - rewrite Hop. cbn [length]. lia.
          - destruct (op_raised op); cbn [length]; lia. }
        lia.
      * constructor. exact Hsub.
    + destruct (IH (Progress fs1 (S (pr_success st)) (pr_failed st) (pr_ops st ++ ops)))
        as (nf & no & Hf & Ho & Hc & Hsafe & Hle & Hsub).
      cbn [pr_failed pr_ops pr_success] in Hf, Ho, Hc.
      exists nf, (ops ++ no).
      rewrite Hf, Ho, <- !app_assoc. cbn [app length map fst].
      repeat split; try lia.
      * apply removes_follow_copies_app; assumption.
      * rewrite List.filter_app, length_app. lia.
      * constructor. exact Hsub.
Qed.

Lemma process_movies_spec fs preview_data :
  let r := _process_movies os fs preview_data in
  ap_success r + length (ap_failed r) = length (List.filter is_found preview_data) /\
  removes_follow_copies (ap_ops r) /\
  length (ap_failed r) <= length (List.filter op_raised (ap_ops r)) /\
  map fst (ap_failed r) `sublist_of` map pv_new_name (List.filter is_found preview_data).
Proof.
  unfold _process_movies. cbn [ap_success ap_failed ap_ops].
  destruct (process_loop_spec (List.filter is_found preview_data) (Progress fs 0 [] []))
    as (nf & no & Hf & Ho & Hc & Hsafe & Hle & Hsub).
  cbn [pr_failed pr_ops pr_success app] in Hf, Ho, Hc.
  rewrite Hf, Ho. repeat split; assumption.
Qed.



(** X21 ([_process_movies]). A file is deleted only right after a copy of
    it that did not raise, made because renaming it to the same target was
    refused with a PermissionError. *)
Theorem X21_removal_only_after_copy fs preview_data :
  removes_follow_copies (ap_ops (_process_movies os fs preview_data)).
Proof.
  apply (process_movies_spec fs preview_data).
Qed.


(** X23 ([_process_movies]). An entry whose target folder already exists,
    is not the folder the file is in, and holds no file of the old name is
    counted as a success although nothing is renamed. *)
Theorem X23_existing_target_counts_as_success st e rest :
  os_dirname os (pv_filepath e)
    <> os_join os (os_dirname os (os_dirname os (pv_filepath e)))
         (movie_folder_name (pv_tmdb_data e)) ->
  os_exists os (pr_fs st)
    (os_join os (os_dirname os (os_dirname os (pv_filepath e)))
       (movie_folder_name (pv_tmdb_data e))) = true ->
  os_exists os (pr_fs st)
    (os_join os
       (os_join os (os_dirname os (os_dirname os (pv_filepath e)))
          (movie_folder_name (pv_tmdb_data e)))
       (os_basename os (pv_filepath e))) = false ->
  process_loop os st (e :: rest)
  = process_loop os
      (Progress (pr_fs st) (S (pr_success st)) (pr_failed st) (pr_ops st)) rest.
Proof.
  intros Hne Hex Hno. cbn [process_loop].
  unfold process_movie, rename_folder, rename_file.
  rewrite Hex. cbn [negb]. rewrite andb_false_r.
  rewrite Hex, Hno. cbn [andb app]. rewrite app_nil_r. reflexivity.
Qed.

End MoverFacts.


Lemma X23_existing_target_counts_as_success_witness :
  dir_of (pv_filepath rocky_entry)
    <> path_join (dir_of (dir_of (pv_filepath rocky_entry)))
         (movie_folder_name (pv_tmdb_data rocky_entry)) /\
  path_exists crowded_files
    (path_join (dir_of (dir_of (pv_filepath rocky_entry)))
       (movie_folder_name (pv_tmdb_data rocky_entry))) = true /\
  path_exists crowded_files
    (path_join (path_join (dir_of (dir_of (pv_filepath rocky_entry)))
                  (movie_folder_name (pv_tmdb_data rocky_entry)))
       (base_of (pv_filepath rocky_entry))) = false /\
  process_loop plain_os (Progress crowded_files 0 [] []) [rocky_entry]
  = process_loop plain_os (Progress crowded_files 1 [] []) [].
Proof.
  assert (H1 : dir_of (pv_filepath rocky_entry)
               <> path_join (dir_of (dir_of (pv_filepath rocky_entry)))
                    (movie_folder_name (pv_tmdb_data rocky_entry)))
    by (vm_compute; discriminate).
  assert (H2 : path_exists crowded_files
                 (path_join (dir_of (dir_of (pv_filepath rocky_entry)))
                    (movie_folder_name (pv_tmdb_data rocky_entry))) = true)
    by (vm_compute; reflexivity).
  assert (H3 : path_exists crowded_files
                 (path_join (path_join (dir_of (dir_of (pv_filepath rocky_entry)))
                               (movie_folder_name (pv_tmdb_data rocky_entry)))
                    (base_of (pv_filepath rocky_entry))) = false)
    by (vm_compute; reflexivity).
  split; [exact H1|]. split; [exact H2|]. split; [exact H3|].
  exact (X23_existing_target_counts_as_success plain_os (Progress crowded_files 0 [] [])
           rocky_entry [] H1 H2 H3).
Defined.

(** On a volume that refuses every rename, the folder of the matched file
    cannot be renamed and the file is reported as failed. *)
Example refused_rename_is_reported :
  ap_ops (_process_movies locked_os sample_files sample_preview)
    = [OpRename (str "/movies/rip") (str "/movies/Rocky II (1979)")
         (Some (PermissionError (str "Permission denied")))] /\
  ap_failed (_process_movies locked_os sample_files sample_preview)
    = [(str "Rocky II (1979).avi", str "Permission denied - check file permissions")] /\
  ap_success (_process_movies locked_os sample_files sample_preview) = 0.
Proof. vm_compute. repeat split. Qed.


(** ** Dropped names *)

Section DropFacts.

Lemma lstrip_chars_clear chars s :
  match s with c :: _ => existsb (Ascii.eqb c) chars = false | [] => True end ->
  lstrip_chars chars s = s.
Proof. destruct s as [|c t]; [reflexivity|]. cbn [lstrip_chars]. intros ->. reflexivity. Qed.

Lemma lstrip_braces_id p :
  Forall (fun c => is_brace c = false) p -> lstrip_chars braces p = p.
Proof.
  intros H. apply lstrip_chars_clear. destruct H as [|c t Hc _]; [exact I | exact Hc].
Qed.

Lemma strip_braces_id p :
  Forall (fun c => is_brace c = false) p -> strip_chars braces p = p.
Proof.
  intros H. unfold strip_chars. rewrite (lstrip_braces_id p H).
  rewrite lstrip_braces_id by (apply Forall_rev; exact H).
  apply rev_involutive.
Qed.

Lemma strip_braces_open p :
  Forall (fun c => is_brace c = false) p -> strip_chars braces (str "{" ++ p) = p.
Proof.
  intros H. unfold strip_chars.
  change (lstrip_chars braces (str "{" ++ p)) with (lstrip_chars braces p).
  apply (strip_braces_id p H).
Qed.

Lemma strip_braces_close p :
  Forall (fun c => is_brace c = false) p -> strip_chars braces (p ++ str "}") = p.
Proof.
  intros H. unfold strip_chars.
  assert (Hl : lstrip_chars braces (p ++ str "}") = p ++ str "}" \/ p = []).
  { destruct H as [|c t Hc _]; [right; reflexivity|]. left.
    cbn [app lstrip_chars]. fold (is_brace c). rewrite Hc. reflexivity. }
  destruct Hl as [-> | ->]; [|reflexivity].
  rewrite rev_app_distr.
  change (lstrip_chars braces (rev (str "}") ++ rev p)) with (lstrip_chars braces (rev p)).
  rewrite lstrip_braces_id by (apply Forall_rev; exact H).
  apply rev_involutive.
Qed.

Lemma strip_braces_both p :
  Forall (fun c => is_brace c = false) p -> strip_chars braces (braced p) = p.
Proof.
  intros H. unfold strip_chars, braced.
  change (lstrip_chars braces (str "{" ++ p ++ str "}"))
    with (lstrip_chars braces (p ++ str "}")).
  apply (strip_braces_close p H).
Qed.

(** A run without a closing brace is read into the current part. *)
Lemma split_at_run p : forall cur rest,
  Forall (fun c => is_brace c = false) p ->
  split_at (str "} {") 0 cur (p ++ rest) = split_at (str "} {") 0 (cur ++ p) rest.
Proof.
  induction p as [|c t IH]; intros cur rest H.
  - rewrite app_nil_r. reflexivity.
  - inversion H as [|? ? Hc Ht]; subst.
    cbn [app split_at].
    replace (starts_with (str "} {") (c :: t ++ rest)) with false.
    + rewrite IH by exact Ht. rewrite <- app_assoc. reflexivity.
    + change (str "} {") with ("}"%char :: str " {"). cbn [starts_with].
      destruct (Ascii.eqb_spec "}"%char c) as [<-|_]; [discriminate Hc | reflexivity].
Qed.

Lemma split_at_sep cur rest :
  split_at (str "} {") 0 cur (str "} {" ++ rest) = cur :: split_at (str "} {") 0 [] rest.
Proof. reflexivity. Qed.

Lemma join_braced p rest :
  join (str " ") (map braced (p :: rest))
  = str "{" ++ p ++ str "}" ++ concat (map (fun q => str " {" ++ q ++ str "}") rest).
Proof.
  revert p. induction rest as [|q qs IH]; intros p.
  - cbn [map join concat]. reflexivity.
  - change (join (str " ") (map braced (p :: q :: qs)))
      with (braced p ++ str " " ++ join (str " ") (map braced (q :: qs))).
    rewrite IH. cbn [map concat]. unfold braced.
    rewrite <- !app_assoc. reflexivity.
Qed.

Lemma split_braced rest : forall p cur,
  cur = [] \/ cur = str "{" ->
  Forall (fun c => is_brace c = false) p ->
  Forall (fun q => Forall (fun c => is_brace c = false) q) rest ->
  map (strip_chars braces)
    (split_at (str "} {") 0 cur
       (p ++ str "}" ++ concat (map (fun q => str " {" ++ q ++ str "}") rest)))
  = p :: rest.
Proof.
  induction rest as [|q qs IH]; intros p cur Hcur Hp Hrest.
  - cbn [map concat]. rewrite app_nil_r, split_at_run by exact Hp.
    change (split_at (str "} {") 0 (cur ++ p) (str "}")) with [(cur ++ p) ++ str "}"].
    cbn [map]. f_equal.
    destruct Hcur as [-> | ->].
    + apply strip_braces_close, Hp.
    + rewrite <- app_assoc. apply strip_braces_both, Hp.
  - inversion Hrest as [|? ? Hq Hqs]; subst.
    cbn [map concat].
    replace (p ++ str "}" ++ (str " {" ++ q ++ str "}") ++
             concat (map (fun q0 => str " {" ++ q0 ++ str "}") qs))
      with (p ++ str "} {" ++
            (q ++ str "}" ++ concat (map (fun q0 => str " {" ++ q0 ++ str "}") qs)))
      by (rewrite <- !app_assoc; reflexivity).
    rewrite split_at_run by exact Hp. rewrite split_at_sep.
    cbn [map]. rewrite IH by (auto). f_equal.
    destruct Hcur as [-> | ->].
    + apply strip_braces_id, Hp.
    + apply strip_braces_open, Hp.
Qed.

Lemma clean_plain p :
  plain p -> strip (strip_chars quotes (strip_chars braces p)) = p.
Proof.
  intros (Hb & Hq & Hs). rewrite strip_braces_id by exact Hb. rewrite Hq. exact Hs.
Qed.

Lemma map_clean_plain paths :
  Forall plain paths ->
  map (fun f => strip (strip_chars quotes (strip_chars braces f))) paths = paths.
Proof.
  induction 1 as [|p t Hp _ IH]; [reflexivity|].
  cbn [map]. rewrite clean_plain by exact Hp. rewrite IH. reflexivity.
Qed.

Lemma contains_brace_false s :
  Forall (fun c => is_brace c = false) s -> contains (str "{") s = false.
Proof.
  induction 1 as [|c t Hc _ IH]; [reflexivity|].
  cbn [contains]. rewrite IH, orb_false_r.
  change (str "{") with ["{"%char]. cbn [starts_with].
  destruct (Ascii.eqb_spec "{"%char c) as [<-|_]; [discriminate Hc | reflexivity].
Qed.

Lemma strip_chars_edges chars c1 mid c2 :
  existsb (Ascii.eqb c1) chars = false -> existsb (Ascii.eqb c2) chars = false ->
  strip_chars chars (c1 :: mid ++ [c2]) = c1 :: mid ++ [c2].
Proof.
  intros H1 H2. unfold strip_chars.
  rewrite (lstrip_chars_clear chars (c1 :: mid ++ [c2])) by exact H1.
  change (c1 :: mid ++ [c2]) with ((c1 :: mid) ++ [c2]) at 1.
  rewrite rev_app_distr. cbn [rev app].
  rewrite lstrip_chars_clear by exact H2.
  change (c2 :: rev mid ++ [c1]) with (rev [c2] ++ rev (c1 :: mid)).
  rewrite <- rev_app_distr, rev_involutive. reflexivity.
Qed.

Lemma strip_edges c1 mid c2 :
  is_space c1 = false -> is_space c2 = false ->
  strip (c1 :: mid ++ [c2]) = c1 :: mid ++ [c2].
Proof.
  intros H1 H2. unfold strip. rewrite lstrip_word_first by exact H1.
  change (c1 :: mid ++ [c2]) with ((c1 :: mid) ++ [c2]).
  apply rstrip_word_last, H2.
Qed.

(** A closing brace that no opening brace follows does not end a part. *)
Lemma split_at_lone_close cur q :
  Forall (fun c => is_brace c = false) q ->
  split_at (str "} {") 0 cur (str "} " ++ q) = [cur ++ str "} " ++ q].
Proof.
  intros Hq.
  assert (H1 : starts_with (str "} {") (str "} " ++ q) = false).
  { destruct Hq as [|c t Hc _]; [reflexivity|].
    change (starts_with (str "} {") (str "} " ++ c :: t))
      with (Ascii.eqb "{"%char c && true).
    destruct (Ascii.eqb_spec "{"%char c) as [<-|_]; [discriminate Hc | reflexivity]. }
  change (str "} " ++ q) with ("}"%char :: " "%char :: q) in *.
  cbn [split_at]. rewrite H1.
  change (starts_with (str "} {") (" "%char :: q)) with false. cbv iota.
  rewrite <- (app_nil_r q) at 1. rewrite split_at_run by exact Hq.
  cbn [split_at]. rewrite <- !app_assoc. reflexivity.
Qed.

Lemma edge_ok_inv c :
  edge_ok c = true -> is_brace c = false /\ is_quote c = false /\ is_space c = false.
Proof.
  unfold edge_ok. destruct (is_brace c), (is_quote c), (is_space c); intros H;
    try discriminate H; auto.
Qed.

End DropFacts.

(** X24 ([on_drop]). A drop in which every name is in braces is read back
    name by name: when no name has a brace in it or a quote or white space
    at its ends, the names looked up are the names dropped, in their
    order. *)
Theorem X24_braced_drop_read_back (paths : list (list ascii)) :
  paths <> [] -> Forall plain paths ->
  dropped_names (join (str " ") (map braced paths)) = paths.
Proof.
  intros Hne Hp. destruct paths as [|p rest]; [contradiction|].
  rewrite join_braced. unfold dropped_names.
  change (truthy (str "{" ++ p ++ str "}" ++
                  concat (map (fun q => str " {" ++ q ++ str "}") rest))) with true.
  cbv iota.
  replace (contains (str "{") _) with true
    by (symmetry; apply contains_iff; exists [], (p ++ str "}" ++
          concat (map (fun q => str " {" ++ q ++ str "}") rest)); reflexivity).
  unfold split_sep.
  change (split_at (str "} {") 0 []
            (str "{" ++ p ++ str "}" ++ concat (map (fun q => str " {" ++ q ++ str "}") rest)))
    with (split_at (str "} {") 0 (str "{")
            (p ++ str "}" ++ concat (map (fun q => str " {" ++ q ++ str "}") rest))).
  inversion Hp as [|? ? Hp1 Hrest]; subst.
  rewrite split_braced.
  - apply map_clean_plain, Hp.
  - right; reflexivity.
  - apply Hp1.
  - eapply Forall_impl; [exact Hrest|]. intros q Hq. apply Hq.
Qed.

Lemma X24_braced_drop_read_back_witness :
  [str "/movies/Rocky II.avi"; str "/movies/new rips"] <> [] /\
  Forall plain [str "/movies/Rocky II.avi"; str "/movies/new rips"] /\
  dropped_names (str "{/movies/Rocky II.avi} {/movies/new rips}")
    = [str "/movies/Rocky II.avi"; str "/movies/new rips"].
Proof.
  assert (H1 : [str "/movies/Rocky II.avi"; str "/movies/new rips"] <> [])
    by discriminate.
  assert (H2 : Forall plain [str "/movies/Rocky II.avi"; str "/movies/new rips"])
    by (repeat constructor).
  split; [exact H1|]. split; [exact H2|].
  exact (X24_braced_drop_read_back _ H1 H2).
Defined.

(** X25 ([on_drop]). A drop without any brace is split at white space:
    when no name has white space or a brace in it or a quote at its ends,
    and none is empty, the names looked up are the names dropped, in their
    order. *)
Theorem X25_bare_drop_read_back (paths : list (list ascii)) :
  paths <> [] -> Forall word_ok paths -> Forall plain paths ->
  dropped_names (join (str " ") paths) = paths.
Proof.
  intros Hne Hw Hp. unfold dropped_names.
  replace (truthy (join (str " ") paths)) with true.
  - rewrite contains_brace_false.
    + rewrite split_join by exact Hw. apply map_clean_plain, Hp.
    + apply Forall_join; [reflexivity|].
      eapply Forall_impl; [exact Hp|]. intros q Hq. apply Hq.
  - destruct paths as [|p rest]; [contradiction|].
    inversion Hw as [|? ? [Hp1 _] _]; subst.
    destruct p as [|c t]; [contradiction|].
    destruct rest; reflexivity.
Qed.

Lemma X25_bare_drop_read_back_witness :
  [str "/movies/Alien.mkv"; str "/movies/rips"] <> [] /\
  Forall word_ok [str "/movies/Alien.mkv"; str "/movies/rips"] /\
  Forall plain [str "/movies/Alien.mkv"; str "/movies/rips"] /\
  dropped_names (str "/movies/Alien.mkv /movies/rips")
    = [str "/movies/Alien.mkv"; str "/movies/rips"].
Proof.
  assert (H1 : [str "/movies/Alien.mkv"; str "/movies/rips"] <> []) by discriminate.
  assert (H2 : Forall word_ok [str "/movies/Alien.mkv"; str "/movies/rips"])
    by (repeat constructor; discriminate).
  assert (H3 : Forall plain [str "/movies/Alien.mkv"; str "/movies/rips"])
    by (repeat constructor).
  split; [exact H1|]. split; [exact H2|]. split; [exact H3|].
  exact (X25_bare_drop_read_back _ H1 H2 H3).
Defined.

(** X26 ([on_drop]). A name in braces followed by a bare name, as in a
    list in which only the names with white space are in braces, is read
    as one name made of both: the brace between them does not end the
    first, and neither of the two names is looked up. *)
Theorem X26_mixed_drop_merged (c1 c2 : ascii) (t1 t2 : list ascii) :
  edge_ok c1 = true -> edge_ok c2 = true ->
  Forall (fun c => is_brace c = false) t1 ->
  Forall (fun c => is_brace c = false) t2 ->
  dropped_names (braced (c1 :: t1) ++ str " " ++ t2 ++ [c2])
  = [(c1 :: t1) ++ str "} " ++ t2 ++ [c2]].
Proof.
  intros H1 H2 Ht1 Ht2.
  apply edge_ok_inv in H1 as (Hb1 & Hq1 & Hs1).
  apply edge_ok_inv in H2 as (Hb2 & Hq2 & Hs2).
  assert (Hp2 : Forall (fun c => is_brace c = false) (t2 ++ [c2]))
    by (apply Forall_app; split; [exact Ht2 | repeat constructor; exact Hb2]).
  unfold dropped_names, braced.
  change (truthy ((str "{" ++ (c1 :: t1) ++ str "}") ++ str " " ++ t2 ++ [c2])) with true.
  cbv iota.
  replace (contains (str "{") _) with true
    by (symmetry; apply contains_iff;
        exists [], (((c1 :: t1) ++ str "}") ++ str " " ++ t2 ++ [c2]);
        rewrite <- !app_assoc; reflexivity).
  unfold split_sep.
  replace ((str "{" ++ (c1 :: t1) ++ str "}") ++ str " " ++ t2 ++ [c2])
    with ("{"%char :: (c1 :: t1) ++ str "} " ++ (t2 ++ [c2]))
    by (rewrite <- ?app_assoc; reflexivity).
  change (split_at (str "} {") 0 [] ("{"%char :: (c1 :: t1) ++ str "} " ++ (t2 ++ [c2])))
    with (split_at (str "} {") 0 (str "{") ((c1 :: t1) ++ str "} " ++ (t2 ++ [c2]))).
  rewrite split_at_run by (constructor; assumption).
  rewrite split_at_lone_close by exact Hp2.
  cbn [map]. f_equal.
  replace ((str "{" ++ c1 :: t1) ++ str "} " ++ t2 ++ [c2])
    with (str "{" ++ (c1 :: (t1 ++ str "} " ++ t2) ++ [c2]))
    by (rewrite <- ?app_assoc; reflexivity).
  replace ((c1 :: t1) ++ str "} " ++ t2 ++ [c2])
    with (c1 :: (t1 ++ str "} " ++ t2) ++ [c2])
    by (rewrite <- ?app_assoc; reflexivity).
  assert (Ho : strip_chars braces (str "{" ++ c1 :: (t1 ++ str "} " ++ t2) ++ [c2])
               = c1 :: (t1 ++ str "} " ++ t2) ++ [c2]).
  { unfold strip_chars.
    change (lstrip_chars braces (str "{" ++ c1 :: (t1 ++ str "} " ++ t2) ++ [c2]))
      with (lstrip_chars braces (c1 :: (t1 ++ str "} " ++ t2) ++ [c2])).
    apply (strip_chars_edges braces); assumption. }
  rewrite Ho.
  rewrite (strip_chars_edges braces) by assumption.
  rewrite (strip_chars_edges quotes) by assumption.
  apply strip_edges; assumption.
Qed.

Lemma X26_mixed_drop_merged_witness :
  edge_ok "/" = true /\ edge_ok "i" = true /\
  Forall (fun c => is_brace c = false) (str "movies/Rocky II.avi") /\
  Forall (fun c => is_brace c = false) (str "/movies/Alien.av") /\
  dropped_names (str "{/movies/Rocky II.avi} /movies/Alien.avi")
    = [str "/movies/Rocky II.avi} /movies/Alien.avi"].
Proof.
  assert (H1 : edge_ok "/" = true) by reflexivity.
  assert (H2 : edge_ok "i" = true) by reflexivity.
  assert (H3 : Forall (fun c => is_brace c = false) (str "movies/Rocky II.avi"))
    by (repeat constructor).
  assert (H4 : Forall (fun c => is_brace c = false) (str "/movies/Alien.av"))
    by (repeat constructor).
  split; [exact H1|]. split; [exact H2|]. split; [exact H3|]. split; [exact H4|].
  exact (X26_mixed_drop_merged "/" "i" (str "movies/Rocky II.avi") (str "/movies/Alien.av")
           H1 H2 H3 H4).
Defined.
